(** * XML to XSD converter: the schema generator [generateXsd]

    A shallow embedding of [generateXsd] (the schema generator that the
    converter component imports from [./xsdGenerator]): the checks on the
    parsed document, the traversal [processNode] that fills the two maps
    [elementInfo] and [elementOrder], and the two loops that print the
    schema.

    Conventions of the embedding.
    - A JavaScript string is a [string]; its characters are code units in the
      range U+0000..U+00FF.
    - A [Map] is an association list in insertion order, a [Set] is a list in
      insertion order; both are iterated in that order, as in JavaScript.
    - The objects stored in the maps are only ever reached through the maps
      (one object per key, never replaced), so a mutation of [info] or
      [order] is an update of the map at the element's name.
    - The browser's [DOMParser] is outside the program: it is a parameter. *)

From Stdlib Require Import String Ascii List Bool Arith Lia.
Import ListNotations.

Local Open Scope string_scope.
Local Open Scope list_scope.

Infix "+++" := String.append (at level 60, right associativity).

(** ** Strings *)

(** The double quote and the line feed, which the template literals of the
    source contain. *)
Definition dq : string := String "034"%char EmptyString.
Definition nl : string := String "010"%char EmptyString.

(** Concatenation of a list of strings, in order. *)
Definition joinAll (l : list string) : string :=
  fold_right String.append EmptyString l.

(** JavaScript truthiness of a string: every string but the empty one. *)
Definition truthy (s : string) : bool :=
  match s with
  | EmptyString => false
  | String _ _ => true
  end.

(** White space in the sense of [String.prototype.trim], among the code
    units below 256: TAB, LF, VT, FF, CR, SP and NBSP. *)
Definition isWhiteSpace (c : ascii) : bool :=
  let n := nat_of_ascii c in
  Nat.eqb n 9 || Nat.eqb n 10 || Nat.eqb n 11 || Nat.eqb n 12
  || Nat.eqb n 13 || Nat.eqb n 32 || Nat.eqb n 160.

Fixpoint trimStart (s : string) : string :=
  match s with
  | EmptyString => EmptyString
  | String c s' => if isWhiteSpace c then trimStart s' else s
  end.

Fixpoint trimEnd (s : string) : string :=
  match s with
  | EmptyString => EmptyString
  | String c s' =>
      match trimEnd s' with
      | EmptyString => if isWhiteSpace c then EmptyString else String c EmptyString
      | t => String c t
      end
  end.

(** [s.trim()] *)
Definition trim (s : string) : string := trimEnd (trimStart s).

(** [s.split("\n")]: the pieces between line feeds; never an empty list. *)
Fixpoint splitLines (s : string) : list string :=
  match s with
  | EmptyString => [EmptyString]
  | String c s' =>
      if Ascii.eqb c "010"%char then EmptyString :: splitLines s'
      else match splitLines s' with
           | [] => [String c EmptyString]
           | l :: ls => String c l :: ls
           end
  end.

(** [s.includes(sub)] on strings. *)
Fixpoint includes (sub s : string) : bool :=
  String.prefix sub s ||
  match s with
  | EmptyString => false
  | String _ s' => includes sub s'
  end.

(** [s.replace(pattern, replacement)] with a string pattern: the first
    occurrence of [pattern] is replaced, the rest of [s] is kept.  The
    replacement is taken literally: the patterns that start with a dollar
    sign never arise, since the replacement is built from an element name
    and no XML name contains a dollar sign. *)
Fixpoint dropChars (n : nat) (s : string) : string :=
  match n, s with
  | S n', String _ s' => dropChars n' s'
  | _, _ => s
  end.

Fixpoint replace (pattern replacement s : string) : string :=
  if String.prefix pattern s
  then replacement +++ dropChars (String.length pattern) s
  else match s with
       | EmptyString => EmptyString
       | String c s' => String c (replace pattern replacement s')
       end.

(** ** Sets and maps of JavaScript, keyed by strings *)

Module JSSet.
Definition t := list string.

Definition empty : t := [].

Definition has (x : string) (s : t) : bool := existsb (String.eqb x) s.

(** [s.add(x)]: a new member goes last. *)
Definition add (x : string) (s : t) : t :=
  if has x s then s else s ++ [x].

Definition size (s : t) : nat := List.length s.

(** The members of [l] added to [s], one after the other. *)
Definition addAll (l : list string) (s : t) : t :=
  fold_left (fun s x => add x s) l s.

(** [new Set(iterable)] *)
Definition ofList (l : list string) : t := addAll l empty.
End JSSet.

Module JSMap.
Definition t (V : Type) := list (string * V).

Definition empty {V} : t V := [].

Fixpoint get {V} (k : string) (m : t V) : option V :=
  match m with
  | [] => None
  | (k', v) :: m' => if String.eqb k k' then Some v else get k m'
  end.

Definition has {V} (k : string) (m : t V) : bool :=
  match get k m with Some _ => true | None => false end.

(** [m.set(k, v)]: an existing key keeps its place, a new key goes last. *)
Fixpoint set {V} (k : string) (v : V) (m : t V) : t V :=
  match m with
  | [] => [(k, v)]
  | (k', v') :: m' =>
      if String.eqb k k' then (k', v) :: m' else (k', v') :: set k v m'
  end.

(** Mutation of the object stored at [k] (nothing to do without one). *)
Fixpoint update {V} (k : string) (f : V -> V) (m : t V) : t V :=
  match m with
  | [] => []
  | (k', v) :: m' =>
      if String.eqb k k' then (k', f v) :: m' else (k', v) :: update k f m'
  end.

Definition keys {V} (m : t V) : list string := map fst m.

Definition entries {V} (m : t V) : list (string * V) := m.
End JSMap.

(** [array.includes(x)] on an array of strings. *)
Definition arrayIncludes (x : string) (a : list string) : bool :=
  existsb (String.eqb x) a.

(** ** The DOM, as far as [generateXsd] looks at it *)

Record Attr := { name : string; value : string }.

(** A node is an element ([nodeType] 1), a text node ([nodeType] 3) or a
    node of another type: a CDATA section (4), a processing instruction (7)
    or a comment (8). *)
#[local] Unset Elimination Schemes.
Inductive Node :=
| Element (tagName : string) (attributes : list Attr) (childNodes : list Node)
| Text (nodeValue : string)
| CDATASection (nodeValue : string)
| ProcessingInstruction (target : string) (nodeValue : string)
| Comment (nodeValue : string).
#[local] Set Elimination Schemes.

(** What [generateXsd] reads of the parsed document: the result of
    [querySelector("parsererror")], of which only [textContent] is used, and
    [documentElement]. *)
Record ParserError := { textContent : string }.

Record XMLDocument := {
  querySelector_parsererror : option ParserError;
  documentElement : option Node
}.

(** The parser of the environment. *)
Record DOMParser := {
  parseFromString : string -> string -> XMLDocument
}.

(** A stand-in parser that knows the documents of a table and finds no root
    element in any other input. *)
Definition tableParser (table : list (string * XMLDocument)) : DOMParser :=
  {| parseFromString := fun str _ =>
       match JSMap.get str table with
       | Some doc => doc
       | None => {| querySelector_parsererror := None; documentElement := None |}
       end |}.

(** ** The accumulated records *)

Record ElementInfo := {
  attributeNames : JSSet.t;      (* info.attributes *)
  children : JSSet.t;            (* info.children *)
  hasTextContent : bool
}.

Record Store := {
  elementInfo : JSMap.t ElementInfo;
  elementOrder : JSMap.t (list string)
}.

Definition emptyStore : Store :=
  {| elementInfo := JSMap.empty; elementOrder := JSMap.empty |}.

Definition newInfo : ElementInfo :=
  {| attributeNames := JSSet.empty; children := JSSet.empty;
     hasTextContent := false |}.

(** The mutations of [processNode]. *)
Definition setInfo (elementName : string) (st : Store) : Store :=
  {| elementInfo := JSMap.set elementName newInfo (elementInfo st);
     elementOrder := elementOrder st |}.

Definition setOrder (elementName : string) (st : Store) : Store :=
  {| elementInfo := elementInfo st;
     elementOrder := JSMap.set elementName [] (elementOrder st) |}.

Definition addAttribute (elementName attrName : string) (st : Store) : Store :=
  {| elementInfo :=
       JSMap.update elementName
         (fun i => {| attributeNames := JSSet.add attrName (attributeNames i);
                      children := children i;
                      hasTextContent := hasTextContent i |})
         (elementInfo st);
     elementOrder := elementOrder st |}.

Definition addChild (elementName childName : string) (st : Store) : Store :=
  {| elementInfo :=
       JSMap.update elementName
         (fun i => {| attributeNames := attributeNames i;
                      children := JSSet.add childName (children i);
                      hasTextContent := hasTextContent i |})
         (elementInfo st);
     elementOrder := elementOrder st |}.

Definition pushOrder (elementName childName : string) (st : Store) : Store :=
  {| elementInfo := elementInfo st;
     elementOrder :=
       JSMap.update elementName (fun o => o ++ [childName]) (elementOrder st) |}.

Definition setHasTextContent (elementName : string) (st : Store) : Store :=
  {| elementInfo :=
       JSMap.update elementName
         (fun i => {| attributeNames := attributeNames i;
                      children := children i;
                      hasTextContent := true |})
         (elementInfo st);
     elementOrder := elementOrder st |}.

(** [elementOrder.get(elementName)], an array once the record exists. *)
Definition orderOf (elementName : string) (st : Store) : list string :=
  match JSMap.get elementName (elementOrder st) with
  | Some o => o
  | None => []
  end.

(** A traversal in progress: the store as it is now, and the stores it went
    through, the latest first.  Every mutation leaves a store behind. *)
Record Run := { now : Store; before : list Store }.

Definition start : Run := {| now := emptyStore; before := [] |}.

Definition mutate (f : Store -> Store) (r : Run) : Run :=
  {| now := f (now r); before := now r :: before r |}.

(** ** The traversal *)

(** The callback of [node.childNodes.forEach] in the visit of an element
    named [elementName].  [childrenProcessedInThisNode] is the local set of
    that visit; [processChild] is the recursive call
    [processNode(childNode, elementName)]. *)
Definition visitChild (processChild : Node -> Run -> Run)
  (elementName : string) (acc : JSSet.t * Run) (childNode : Node)
  : JSSet.t * Run :=
  let '(childrenProcessedInThisNode, r) := acc in
  match childNode with
  | Element childName _ _ =>
      let r := mutate (addChild elementName childName) r in
      let order := orderOf elementName (now r) in
      let '(r, childrenProcessedInThisNode) :=
        if Nat.eqb (List.length order) 0
           || negb (arrayIncludes childName order)
        then
          if negb (JSSet.has childName childrenProcessedInThisNode)
             && Nat.eqb (List.length order) 0
          then (mutate (pushOrder elementName childName) r,
                JSSet.add childName childrenProcessedInThisNode)
          else if negb (arrayIncludes childName order)
          then (mutate (pushOrder elementName childName) r,
                childrenProcessedInThisNode)
          else (r, childrenProcessedInThisNode)
        else (r, childrenProcessedInThisNode) in
      (childrenProcessedInThisNode, processChild childNode r)
  | Text nodeValue =>
      if negb (trim nodeValue =? EmptyString)
      then (childrenProcessedInThisNode,
            mutate (setHasTextContent elementName) r)
      else acc
  | _ => acc
  end.

(** [processNode(node, parentName)].  The local flag [hasChildElements] is
    left out: the two conditionals that read it have empty bodies. *)
Fixpoint processNode (node : Node) (parentName : option string) (r : Run)
  {struct node} : Run :=
  match node with
  | Element elementName attrs childNodes =>
      let r :=
        if JSMap.has elementName (elementInfo (now r)) then r
        else mutate (setOrder elementName) (mutate (setInfo elementName) r) in
      let r :=
        fold_left (fun r a => mutate (addAttribute elementName (name a)) r)
                  attrs r in
      snd (fold_left
             (visitChild (fun childNode => processNode childNode (Some elementName))
                         elementName)
             childNodes (JSSet.empty, r))
  | Text nodeValue =>
      match parentName with
      | Some p =>
          if negb (trim nodeValue =? EmptyString) && truthy p
             && JSMap.has p (elementInfo (now r))
          then mutate (setHasTextContent p) r
          else r
      | None => r
      end
  | _ => r
  end.

(** ** The printer *)

(** Body of the loop over [elementInfo.keys()]: the global declaration of one
    element.  [get] cannot miss, the name being a key of the map. *)
Definition declareElement (elementInfo : JSMap.t ElementInfo)
  (xsdString elementName : string) : string :=
  match JSMap.get elementName elementInfo with
  | None => xsdString
  | Some info =>
      let hasChildren := Nat.ltb 0 (JSSet.size (children info)) in
      let hasAttributes := Nat.ltb 0 (JSSet.size (attributeNames info)) in
      if negb hasChildren && negb hasAttributes && hasTextContent info
      then xsdString +++ "  <xs:element name=" +++ dq +++ elementName +++ dq
             +++ " type=" +++ dq +++ "xs:string" +++ dq +++ "/>" +++ nl
      else xsdString +++ "  <xs:element name=" +++ dq +++ elementName +++ dq
             +++ " type=" +++ dq +++ "tns:" +++ elementName +++ "Type" +++ dq
             +++ "/>" +++ nl
  end.

(** One line of a sequence and one attribute line; [indent] is the white
    space in front of [<xs:attribute], which differs between the two places
    that print attributes. *)
Definition childReference (childName : string) : string :=
  "      <xs:element ref=" +++ dq +++ "tns:" +++ childName +++ dq
  +++ " minOccurs=" +++ dq +++ "0" +++ dq
  +++ " maxOccurs=" +++ dq +++ "unbounded" +++ dq +++ "/>" +++ nl.

Definition attributeDeclaration (indent attrName : string) : string :=
  indent +++ "<xs:attribute name=" +++ dq +++ attrName +++ dq
  +++ " type=" +++ dq +++ "xs:string" +++ dq
  +++ " use=" +++ dq +++ "optional" +++ dq +++ "/>" +++ nl.

(** The opening tag of a type definition, from [ name=] on. *)
Definition typeNameAttribute (elementName : string) (isMixed : bool) : string :=
  " name=" +++ dq +++ elementName +++ "Type" +++ dq
  +++ (if isMixed then " mixed=" +++ dq +++ "true" +++ dq else EmptyString)
  +++ ">".

(** Body of the loop over [elementInfo.entries()]: the type definition of one
    element, if it needs one.  The chain of conditionals yields [inr] where
    the source leaves the iteration with [continue], and [inl] where it goes
    on to the attributes and the closing tag. *)
Definition defineComplexType (elementOrder : JSMap.t (list string))
  (xsdString : string) (entry : string * ElementInfo) : string :=
  let '(elementName, info) := entry in
  let hasChildren := Nat.ltb 0 (JSSet.size (children info)) in
  let hasAttributes := Nat.ltb 0 (JSSet.size (attributeNames info)) in
  if hasChildren || hasAttributes
     || (negb (hasTextContent info) && negb hasChildren && negb hasAttributes)
  then
    let isMixed := hasTextContent info && hasChildren in
    let xsdString :=
      xsdString +++ "  <xs:complexType"
        +++ typeNameAttribute elementName isMixed +++ nl in
    let chain : string + string :=
      if hasChildren then
        let xsdString := xsdString +++ "    <xs:sequence>" +++ nl in
        let childrenOrder :=
          match JSMap.get elementName elementOrder with
          | Some order => order
          | None => children info
          end in
        let allChildren := JSSet.ofList (childrenOrder ++ children info) in
        let xsdString :=
          fold_left (fun xsdString childName =>
                       xsdString +++ childReference childName)
                    allChildren xsdString in
        inl (xsdString +++ "    </xs:sequence>" +++ nl)
      else if negb hasChildren && negb (hasTextContent info) then
        inl (xsdString +++ "    <xs:sequence minOccurs=" +++ dq +++ "0" +++ dq
               +++ "/>" +++ nl)
      else if hasTextContent info && negb hasChildren && hasAttributes then
        let xsdString :=
          replace (typeNameAttribute elementName isMixed)
                  (typeNameAttribute elementName false) xsdString in
        let xsdString := xsdString +++ "    <xs:simpleContent>" +++ nl in
        let xsdString :=
          xsdString +++ "      <xs:extension base=" +++ dq +++ "xs:string"
            +++ dq +++ ">" +++ nl in
        let xsdString :=
          fold_left (fun xsdString attrName =>
                       xsdString +++ attributeDeclaration "        " attrName)
                    (attributeNames info) xsdString in
        let xsdString := xsdString +++ "      </xs:extension>" +++ nl in
        let xsdString := xsdString +++ "    </xs:simpleContent>" +++ nl in
        inr (xsdString +++ "  </xs:complexType>" +++ nl +++ nl)
      else inl xsdString in
    match chain with
    | inr xsdString => xsdString
    | inl xsdString =>
        let xsdString :=
          fold_left (fun xsdString attrName =>
                       xsdString +++ attributeDeclaration "    " attrName)
                    (attributeNames info) xsdString in
        xsdString +++ "  </xs:complexType>" +++ nl +++ nl
    end
  else xsdString.

(** The fixed opening of the schema: the XML declaration and the start tag
    of [xs:schema] with its namespaces. *)
Definition xmlDeclaration : string :=
  "<?xml version=" +++ dq +++ "1.0" +++ dq +++ " encoding=" +++ dq
  +++ "UTF-8" +++ dq +++ "?>" +++ nl.

Definition schemaStartTag : string :=
  ("<xs:schema xmlns:xs=" +++ dq +++ "http://www.w3.org/2001/XMLSchema"
     +++ dq +++ nl)
  +++ ("           targetNamespace=" +++ dq
         +++ "http://example.com/generatedSchema" +++ dq +++ nl)
  +++ ("           xmlns:tns=" +++ dq
         +++ "http://example.com/generatedSchema" +++ dq +++ nl)
  +++ ("           elementFormDefault=" +++ dq +++ "qualified" +++ dq
         +++ ">" +++ nl +++ nl).

(** The part of [generateXsd] after the traversal. *)
Definition printSchema (st : Store) : string :=
  let xsdString := xmlDeclaration in
  let xsdString := xsdString +++ schemaStartTag in
  let xsdString := xsdString +++ "  <!-- Global Element Declarations -->" +++ nl in
  let xsdString :=
    fold_left (declareElement (elementInfo st))
              (JSMap.keys (elementInfo st)) xsdString in
  let xsdString := xsdString +++ nl in
  let xsdString := xsdString +++ "  <!-- Complex Type Definitions -->" +++ nl in
  let xsdString :=
    fold_left (defineComplexType (elementOrder st))
              (JSMap.entries (elementInfo st)) xsdString in
  xsdString +++ "</xs:schema>" +++ nl.

(** What the two loops print for one element: its global declaration and
    its type definition (empty when the element has none). *)
Definition elementDeclaration (st : Store) (elementName : string) : string :=
  declareElement (elementInfo st) EmptyString elementName.

Definition typeDefinition (st : Store) (entry : string * ElementInfo) : string :=
  defineComplexType (elementOrder st) EmptyString entry.

(** ** The entry point *)

(** What a call ends with: the returned schema or the message of the thrown
    [Error]. *)
Inductive Outcome :=
| Return (xsd : string)
| Throw (message : string).

(** The console: the calls of [console.error] so far, oldest first. *)
Record LogEntry := { label : string; logged : ParserError }.
Definition Console := list LogEntry.

(** [x || fallback] where [x] is a string or [undefined]. *)
Definition orElse (x : option string) (fallback : string) : string :=
  match x with
  | Some s => if truthy s then s else fallback
  | None => fallback
  end.

Definition parseErrorMessage (parserError : ParserError) : string :=
  "Invalid XML: "
  +++ orElse (nth_error (splitLines (textContent parserError)) 1)
             "Parsing failed.".

Definition noRootMessage : string := "Invalid XML: No root element found.".

(** The records of a document whose root is [rootElement]: the two maps are
    created empty by each call. *)
Definition analyse (rootElement : Node) : Run :=
  processNode rootElement None start.

Definition generateXsd (parser : DOMParser) (xmlString : string)
  (console : Console) : Outcome * Console :=
  let xmlDoc := parseFromString parser xmlString "application/xml" in
  match querySelector_parsererror xmlDoc with
  | Some parserError =>
      (Throw (parseErrorMessage parserError),
       console ++ [{| label := "XML Parsing Error:"; logged := parserError |}])
  | None =>
      match documentElement xmlDoc with
      | None => (Throw noRootMessage, console)
      | Some rootElement =>
          (Return (printSchema (now (analyse rootElement))), console)
      end
  end.

(** ** Sample documents *)

(** [<list><value>A</value><value>B</value></list>] *)
Definition listDocument : Node :=
  Element "list" []
    [Element "value" [] [Text "A"]; Element "value" [] [Text "B"]].

(** [<message>Hello World</message>] *)
Definition messageDocument : Node :=
  Element "message" [] [Text "Hello World"].

(** [<measurement unit="cm">150</measurement>] *)
Definition measurementDocument : Node :=
  Element "measurement" [{| name := "unit"; value := "cm" |}] [Text "150"].

(** [<config active="false"/>] *)
Definition configDocument : Node :=
  Element "config" [{| name := "active"; value := "false" |}] [].

(** [<description>This item is <highlight>very</highlight>
    important.</description>] *)
Definition descriptionDocument : Node :=
  Element "description" []
    [Text "This item is "; Element "highlight" [] [Text "very"];
     Text " important."].

(** A document with a comment, a blank text node, a CDATA section and a
    processing instruction, and the same tag at two depths:
    [<a x="1"><!--c--> <b><a y="2"><c/></a></b><![CDATA[t]]><?p q?><d/></a>] *)
Definition nestedDocument : Node :=
  Element "a" [{| name := "x"; value := "1" |}]
    [Comment "c"; Text " ";
     Element "b" []
       [Element "a" [{| name := "y"; value := "2" |}] [Element "c" [] []]];
     CDATASection "t"; ProcessingInstruction "p" "q";
     Element "d" [] []].

(** A parser error whose text is a single line, and one with a second
    line. *)
Definition oneLineError : ParserError :=
  {| textContent := "Document is empty" |}.

Definition twoLineError : ParserError :=
  {| textContent := "Simulated error" +++ nl +++ "Details here" |}.

Definition rooted (root : Node) : XMLDocument :=
  {| querySelector_parsererror := None; documentElement := Some root |}.

Definition failed (e : ParserError) (root : option Node) : XMLDocument :=
  {| querySelector_parsererror := Some e; documentElement := root |}.

(** A parser for the samples; the empty string, like every input that is
    not in the table, gives a document without a root element. *)
Definition sampleParser : DOMParser :=
  tableParser
    [("<list><value>A</value><value>B</value></list>", rooted listDocument);
     ("<message>Hello World</message>", rooted messageDocument);
     ("<a>", failed oneLineError None);
     ("<a></b>", failed twoLineError (Some messageDocument))].

(** ** Notions used in the statements *)

(** Induction on nodes: a property that holds of every node that is not an
    element, and of an element once it holds of its children, holds of all
    nodes. *)
Section NodeInduction.
Variable P : Node -> Prop.
Hypothesis HElement : forall tagName attrs childNodes,
    Forall P childNodes -> P (Element tagName attrs childNodes).
Hypothesis HText : forall v, P (Text v).
Hypothesis HCDATA : forall v, P (CDATASection v).
Hypothesis HPI : forall t v, P (ProcessingInstruction t v).
Hypothesis HComment : forall v, P (Comment v).

Fixpoint Node_ind (node : Node) : P node :=
  match node with
  | Element tagName attrs childNodes =>
      HElement tagName attrs childNodes
        ((fix all (cs : list Node) : Forall P cs :=
            match cs with
            | [] => Forall_nil P
            | c :: cs' => Forall_cons c (Node_ind c) (all cs')
            end) childNodes)
  | Text v => HText v
  | CDATASection v => HCDATA v
  | ProcessingInstruction t v => HPI t v
  | Comment v => HComment v
  end.
End NodeInduction.

(** The tag names of the elements of a tree in document order, which is the
    order in which [processNode] meets them. *)
Fixpoint tagNames (node : Node) : list string :=
  match node with
  | Element tagName _ childNodes => tagName :: flat_map tagNames childNodes
  | _ => []
  end.

(** What the document itself shows for a tag: the attribute names on the
    elements with that tag, and the tag names of their element children,
    each as often as it occurs. *)
Definition childTagNames (cs : list Node) : list string :=
  flat_map (fun c => match c with Element m _ _ => [m] | _ => [] end) cs.

Fixpoint attributeNamesIn (tag : string) (node : Node) : list string :=
  match node with
  | Element n attrs cs =>
      (if String.eqb n tag then map name attrs else [])
      ++ flat_map (attributeNamesIn tag) cs
  | _ => []
  end.

Fixpoint childNamesIn (tag : string) (node : Node) : list string :=
  match node with
  | Element n _ cs =>
      (if String.eqb n tag then childTagNames cs else [])
      ++ flat_map (childNamesIn tag) cs
  | _ => []
  end.

(** A set of the record of [tag], empty while the tag has no record. *)
Definition fieldOf (field : ElementInfo -> JSSet.t) (st : Store) (tag : string)
  : JSSet.t :=
  match JSMap.get tag (elementInfo st) with
  | Some i => field i
  | None => []
  end.

(** The reading of "the message includes the parser's own detail text" that
    asks least: some line of the parser's text, not an empty one, occurs in
    the message. *)
Definition messageHasParserDetail (e : ParserError) (message : string) : Prop :=
  exists line,
    In line (splitLines (textContent e))
    /\ line <> EmptyString
    /\ includes line message = true.

(** The sets of a record have no repeated member; the order of an element
    has no repeated name, and belongs to a record whose children include
    every name of the order. *)
Definition StoreInv (st : Store) : Prop :=
  (forall n i, JSMap.get n (elementInfo st) = Some i ->
               NoDup (attributeNames i) /\ NoDup (children i))
  /\ (forall n o, JSMap.get n (elementOrder st) = Some o ->
                  NoDup o
                  /\ exists i, JSMap.get n (elementInfo st) = Some i
                               /\ incl o (children i)).

(** Every tag that has a record has an order: [elementOrder.get] of such a
    tag is an array. *)
Definition Paired (st : Store) : Prop :=
  forall n, JSMap.has n (elementInfo st) = true ->
            JSMap.has n (elementOrder st) = true.

(** The invariant at every point of a traversal. *)
Definition RunInv (r : Run) : Prop := Forall StoreInv (now r :: before r).

(** ** The parser of the test suite *)

(** The text before and the text after the first occurrence of [sub]. *)
Fixpoint cut (sub s : string) : option (string * string) :=
  if String.prefix sub s
  then Some (EmptyString, dropChars (String.length sub) s)
  else match s with
       | EmptyString => None
       | String c s' =>
           match cut sub s' with
           | Some (a, b) => Some (String c a, b)
           | None => None
           end
       end.

(** [str.match(/<parsererror>([\s\S]*?)<\/parsererror>/)], the captured
    group: the text between the first opening tag and the first closing tag
    after it.  Without a closing tag after the first opening tag there is
    none after a later one either, and the match fails. *)
Definition matchParserError (str : string) : option string :=
  match cut "<parsererror>" str with
  | Some (_, rest) =>
      match cut "</parsererror>" rest with
      | Some (inner, _) => Some inner
      | None => None
      end
  | None => None
  end.

Definition simulatedError : string :=
  "Simulated parser error" +++ nl +++ "Details here".

Definition commentOnly : string :=
  "<?xml version=" +++ dq +++ "1.0" +++ dq +++ "?><!-- Just a comment -->".

(** The document node of the mock, as far as [parseFromString] sets it and
    [generateXsd] reads it. *)
Record MockDocument := {
  _isError : bool;
  errorContent : string;
  mockDocumentElement : option Node
}.

Definition newMockDocument : MockDocument :=
  {| _isError := false; errorContent := EmptyString;
     mockDocumentElement := None |}.

(** [doc.querySelector("parsererror")] *)
Definition mockQuerySelector (doc : MockDocument) : option ParserError :=
  if _isError doc
  then Some {| textContent :=
                 if truthy (errorContent doc) then errorContent doc
                 else simulatedError |}
  else None.

(** [parseFromString] of the mock.  The two special cases return before any
    tag is read; the loop that reads the tags is not modelled and stands
    here as the parameter [readTags]. *)
Definition mockParseFromString (readTags : string -> MockDocument)
  (str type : string) : MockDocument :=
  let doc := newMockDocument in
  if negb (truthy str) || negb (truthy (trim str))
     || (trim str =? commentOnly)%string
  then doc
  else if includes "<parsererror>" str
  then {| _isError := true;
          errorContent :=
            match matchParserError str with
            | Some inner => trim inner
            | None => simulatedError
            end;
          mockDocumentElement := mockDocumentElement doc |}
  else readTags str.

Definition mockParser (readTags : string -> MockDocument) : DOMParser :=
  {| parseFromString := fun str type =>
       let doc := mockParseFromString readTags str type in
       {| querySelector_parsererror := mockQuerySelector doc;
          documentElement := mockDocumentElement doc |} |}.

(** ** The converter component *)

Module Converter.

(** The state of the component. *)
Record State := {
  xmlInput : string;
  xsdOutput : string;
  error : string;
  isLoading : bool;
  copyStatus : string
}.

(** A call of [console.error]: by [generateXsd], or by the component with
    the message of the error it caught. *)
Inductive ConsoleCall :=
| ParsingError (entry : LogEntry)
| ConversionError (message : string).

(** [handleXmlInputChange], with the new value of the text area. *)
Definition handleXmlInputChange (newValue : string) (ui : State) : State :=
  {| xmlInput := newValue; xsdOutput := EmptyString; error := EmptyString;
     isLoading := isLoading ui; copyStatus := EmptyString |}.

(** [handleConvert], up to [setTimeout]: the new state, and the input that
    the callback given to [setTimeout] has captured, if one was set. *)
Definition handleConvert (ui : State) : State * option string :=
  if negb (truthy (trim (xmlInput ui)))
  then ({| xmlInput := xmlInput ui; xsdOutput := xsdOutput ui;
           error := "Please paste or upload XML content.";
           isLoading := isLoading ui; copyStatus := copyStatus ui |},
        None)
  else ({| xmlInput := xmlInput ui; xsdOutput := EmptyString;
           error := EmptyString; isLoading := true;
           copyStatus := EmptyString |},
        Some (xmlInput ui)).

(** The callback given to [setTimeout], run on the state of that moment. *)
Definition conversionTimer (parser : DOMParser) (captured : string)
  (ui : State) (console : list ConsoleCall) : State * list ConsoleCall :=
  let '(outcome, logged) := generateXsd parser captured [] in
  let console := console ++ map ParsingError logged in
  match outcome with
  | Return generatedSchema =>
      ({| xmlInput := xmlInput ui; xsdOutput := generatedSchema;
          error := error ui; isLoading := false;
          copyStatus := copyStatus ui |},
       console)
  | Throw message =>
      ({| xmlInput := xmlInput ui; xsdOutput := EmptyString;
          error := "Conversion failed: " +++ message; isLoading := false;
          copyStatus := copyStatus ui |},
       console ++ [ConversionError message])
  end.

(** What is rendered: [{xsdOutput && !isLoading && ...}], [{error && ...}]
    and [disabled={isLoading || !xmlInput.trim()}]. *)
Definition outputShown (ui : State) : bool :=
  truthy (xsdOutput ui) && negb (isLoading ui).

Definition errorShown (ui : State) : bool := truthy (error ui).

Definition convertDisabled (ui : State) : bool :=
  isLoading ui || negb (truthy (trim (xmlInput ui))).

End Converter.

(** ** Notions used in the further properties *)

(** The text flag of the record of [tag], [false] while the tag has no
    record. *)
Definition flagOf (st : Store) (tag : string) : bool :=
  match JSMap.get tag (elementInfo st) with
  | Some i => hasTextContent i
  | None => false
  end.

(** A tag has an order exactly when it has a record. *)
Definition Matched (st : Store) : Prop :=
  forall n, JSMap.has n (elementOrder st) = JSMap.has n (elementInfo st).

(** A list of child nodes has a text node that is not blank. *)
Definition hasDirectText (cs : list Node) : bool :=
  existsb (fun c => match c with
                    | Text v => negb (trim v =? EmptyString)%string
                    | _ => false
                    end) cs.

(** The document has an element of the tag with such a text node among its
    child nodes. *)
Fixpoint textIn (tag : string) (node : Node) : bool :=
  match node with
  | Element n _ cs =>
      (String.eqb n tag && hasDirectText cs) || existsb (textIn tag) cs
  | _ => false
  end.

(** The tag names of the element children of the elements of [tag], in the
    order in which the traversal meets them: a child, then what is below
    it, then the next child. *)
Fixpoint childSequence (tag : string) (node : Node) : list string :=
  match node with
  | Element n _ cs =>
      flat_map (fun c => (if String.eqb n tag then childTagNames [c] else [])
                         ++ childSequence tag c) cs
  | _ => []
  end.

(** The records of a document, written down directly: one record per tag
    name in order of first occurrence, each read off the document. *)
Definition summarise (rootElement : Node) : Store :=
  {| elementInfo :=
       map (fun tag =>
              (tag,
               {| attributeNames :=
                    JSSet.ofList (attributeNamesIn tag rootElement);
                  children := JSSet.ofList (childSequence tag rootElement);
                  hasTextContent := textIn tag rootElement |}))
           (JSSet.ofList (tagNames rootElement));
     elementOrder :=
       map (fun tag => (tag, JSSet.ofList (childSequence tag rootElement)))
           (JSSet.ofList (tagNames rootElement)) |}.

(** The child nodes that the traversal does something with: elements, and
    text nodes that are not blank. *)
Definition significant (c : Node) : bool :=
  match c with
  | Element _ _ _ => true
  | Text v => negb (trim v =? EmptyString)%string
  | _ => false
  end.

(** The document without its comments, processing instructions, CDATA
    sections and blank text nodes. *)
Fixpoint prune (node : Node) : Node :=
  match node with
  | Element n attrs cs =>
      Element n attrs
        (flat_map (fun c => if significant c then [prune c] else []) cs)
  | _ => node
  end.

(** * Properties *)

(** ** Strings *)

Lemma append_assoc (a b c : string) : (a +++ b) +++ c = a +++ b +++ c.
Proof.
  induction a as [|x a IH]; simpl; [reflexivity|]. now rewrite IH.
Qed.

Lemma append_nil_r (a : string) : a +++ EmptyString = a.
Proof.
  induction a as [|x a IH]; simpl; [reflexivity|]. now rewrite IH.
Qed.

Lemma joinAll_app (l1 l2 : list string) :
  joinAll (l1 ++ l2) = joinAll l1 +++ joinAll l2.
Proof.
  induction l1 as [|x l1 IH]; simpl; [reflexivity|].
  now rewrite IH, append_assoc.
Qed.

(** A loop that appends one piece per item appends the pieces in order. *)
Lemma fold_left_append {A} (f : A -> string) (l : list A) (acc : string) :
  fold_left (fun xs x => xs +++ f x) l acc = acc +++ joinAll (map f l).
Proof.
  revert acc; induction l as [|x l IH]; intros acc; simpl.
  - now rewrite append_nil_r.
  - now rewrite IH, append_assoc.
Qed.

Lemma prefix_dropChars (p s : string) :
  String.prefix p s = true -> p +++ dropChars (String.length p) s = s.
Proof.
  revert s; induction p as [|c p IH]; intros s H; simpl.
  - destruct s; reflexivity.
  - destruct s as [|d s]; simpl in H; [discriminate|].
    destruct (Ascii.ascii_dec c d) as [->|]; [|discriminate].
    simpl. now rewrite IH.
Qed.

Lemma prefix_append (p s : string) : String.prefix p (p +++ s) = true.
Proof.
  induction p as [|c p IH]; simpl.
  - destruct s; reflexivity.
  - destruct (Ascii.ascii_dec c c); [assumption|congruence].
Qed.

(** Replacing a text by itself changes nothing. *)
Lemma replace_same (p s : string) : replace p p s = s.
Proof.
  induction s as [|c s IH].
  - destruct p; reflexivity.
  - change (replace p p (String c s))
      with (if String.prefix p (String c s)
            then p +++ dropChars (String.length p) (String c s)
            else String c (replace p p s)).
    destruct (String.prefix p (String c s)) eqn:E.
    + exact (prefix_dropChars _ _ E).
    + now rewrite IH.
Qed.

Lemma includes_prefix (sub s : string) :
  String.prefix sub s = true -> includes sub s = true.
Proof.
  intros H. destruct s; unfold includes; fold includes; now rewrite H.
Qed.

Lemma includes_append (sub a b : string) : includes sub (a +++ sub +++ b) = true.
Proof.
  induction a as [|c a IH].
  - apply includes_prefix. exact (prefix_append sub b).
  - change (includes sub (String c a +++ sub +++ b))
      with (String.prefix sub (String c a +++ sub +++ b)
            || includes sub (a +++ sub +++ b)).
    rewrite IH. apply orb_true_r.
Qed.

(** ** Sets *)

Lemma has_In (x : string) (s : JSSet.t) : JSSet.has x s = true <-> In x s.
Proof.
  unfold JSSet.has. rewrite existsb_exists. split.
  - intros [y [Hy E]]. apply String.eqb_eq in E. now subst.
  - intros H. exists x. split; [assumption|apply String.eqb_refl].
Qed.

Lemma has_notIn (x : string) (s : JSSet.t) : JSSet.has x s = false <-> ~ In x s.
Proof.
  rewrite <- has_In. destruct (JSSet.has x s); intuition congruence.
Qed.

Lemma In_add (x y : string) (s : JSSet.t) :
  In y (JSSet.add x s) <-> y = x \/ In y s.
Proof.
  unfold JSSet.add. destruct (JSSet.has x s) eqn:E.
  - apply has_In in E. intuition (subst; assumption).
  - rewrite in_app_iff. simpl. intuition.
Qed.

Lemma NoDup_add (x : string) (s : JSSet.t) : NoDup s -> NoDup (JSSet.add x s).
Proof.
  intros H. unfold JSSet.add. destruct (JSSet.has x s) eqn:E; [assumption|].
  apply has_notIn in E. apply NoDup_app; [assumption|repeat constructor; intros []|].
  intros y Hy [<-|[]]. contradiction.
Qed.

(** Adding the members of a list without repetition to a set appends those
    that are new, in their order. *)
Lemma fold_add_filter (l : list string) (acc : JSSet.t) :
  NoDup l ->
  fold_left (fun s x => JSSet.add x s) l acc
  = acc ++ filter (fun x => negb (JSSet.has x acc)) l.
Proof.
  revert acc; induction l as [|x l IH]; intros acc Hl; simpl.
  - now rewrite app_nil_r.
  - inversion Hl as [|? ? Hx Hl']; subst. rewrite IH by assumption.
    unfold JSSet.add. destruct (JSSet.has x acc) eqn:E; simpl; [reflexivity|].
    rewrite <- app_assoc. simpl. do 2 f_equal.
    apply filter_ext_in. intros y Hy. f_equal.
    unfold JSSet.has. rewrite existsb_app. simpl.
    destruct (String.eqb_spec y x) as [->|]; [contradiction|].
    now rewrite !orb_false_r.
Qed.

Lemma fold_add_NoDup (l : list string) (acc : JSSet.t) :
  NoDup acc -> NoDup (fold_left (fun s x => JSSet.add x s) l acc).
Proof.
  revert acc; induction l as [|x l IH]; intros acc H; simpl; [assumption|].
  apply IH, NoDup_add, H.
Qed.

Lemma fold_add_In (l : list string) (acc : JSSet.t) (y : string) :
  In y (fold_left (fun s x => JSSet.add x s) l acc) <-> In y acc \/ In y l.
Proof.
  revert acc; induction l as [|x l IH]; intros acc; simpl.
  - intuition.
  - rewrite IH, In_add. intuition.
Qed.

Lemma fold_add_self (l : list string) :
  NoDup l -> fold_left (fun s x => JSSet.add x s) l [] = l.
Proof.
  intros H. rewrite fold_add_filter by assumption. simpl.
  induction l as [|x l IH]; simpl; [reflexivity|].
  inversion H; subst. now rewrite IH.
Qed.

(** [new Set([...order, ...children])]: the order first, then the children
    that the order does not have. *)
Lemma ofList_order_children (order ch : list string) :
  NoDup order -> NoDup ch ->
  JSSet.ofList (order ++ ch)
  = order ++ filter (fun x => negb (JSSet.has x order)) ch.
Proof.
  intros Ho Hc. unfold JSSet.ofList, JSSet.addAll, JSSet.empty.
  rewrite fold_left_app, (fold_add_self order Ho).
  now apply fold_add_filter.
Qed.

(** ** The printer appends *)

Lemma fold_left_pieces {A} (f : string -> A -> string) (l : list A) (acc : string) :
  (forall xs x, f xs x = xs +++ f EmptyString x) ->
  fold_left f l acc = acc +++ joinAll (map (f EmptyString) l).
Proof.
  intros Hf. revert acc; induction l as [|x l IH]; intros acc; simpl.
  - now rewrite append_nil_r.
  - now rewrite IH, (Hf acc x), append_assoc.
Qed.

Lemma declareElement_append ei (xs elementName : string) :
  declareElement ei xs elementName
  = xs +++ declareElement ei EmptyString elementName.
Proof.
  unfold declareElement. destruct (JSMap.get elementName ei) as [info|].
  - destruct (_ && _ && _); reflexivity.
  - now rewrite append_nil_r.
Qed.

Lemma defineComplexType_append eo (xs : string) entry :
  defineComplexType eo xs entry
  = xs +++ defineComplexType eo EmptyString entry.
Proof.
  unfold defineComplexType. destruct entry as [elementName info].
  destruct (Nat.ltb 0 (JSSet.size (children info)));
    destruct (Nat.ltb 0 (JSSet.size (attributeNames info)));
    destruct (hasTextContent info); cbn [orb andb negb];
    rewrite ?replace_same, ?fold_left_append, ?append_assoc;
    rewrite ?append_nil_r; try reflexivity.
Qed.

Lemma printSchema_layout (st : Store) :
  printSchema st
  = xmlDeclaration +++ schemaStartTag
    +++ ("  <!-- Global Element Declarations -->" +++ nl)
    +++ joinAll (map (elementDeclaration st) (JSMap.keys (elementInfo st)))
    +++ nl
    +++ ("  <!-- Complex Type Definitions -->" +++ nl)
    +++ joinAll (map (typeDefinition st) (JSMap.entries (elementInfo st)))
    +++ "</xs:schema>" +++ nl.
Proof.
  unfold printSchema, elementDeclaration, typeDefinition.
  rewrite (fold_left_pieces (declareElement (elementInfo st)))
    by apply declareElement_append.
  rewrite (fold_left_pieces (defineComplexType (elementOrder st)))
    by apply defineComplexType_append.
  now rewrite !append_assoc.
Qed.

(** A piece of a concatenation has a text before it and a text after it. *)
Lemma joinAll_split {A} (f : A -> string) (l : list A) (x : A) :
  In x l -> exists before after, joinAll (map f l) = before +++ f x +++ after.
Proof.
  intros H. apply in_split in H as [l1 [l2 ->]].
  exists (joinAll (map f l1)), (joinAll (map f l2)).
  now rewrite map_app, joinAll_app.
Qed.

(** ** Maps *)

Lemma get_update {V} (k k' : string) (f : V -> V) (m : JSMap.t V) :
  JSMap.get k' (JSMap.update k f m)
  = if String.eqb k' k then option_map f (JSMap.get k m) else JSMap.get k' m.
Proof.
  induction m as [|[k0 v] m IH]; simpl.
  - now destruct (String.eqb k' k).
  - destruct (String.eqb_spec k k0) as [->|Hk]; simpl.
    + destruct (String.eqb_spec k' k0) as [->|]; reflexivity.
    + rewrite IH. destruct (String.eqb_spec k' k0) as [->|].
      * destruct (String.eqb_spec k0 k) as [->|]; [contradiction|reflexivity].
      * reflexivity.
Qed.

Lemma get_set {V} (k k' : string) (v : V) (m : JSMap.t V) :
  JSMap.get k' (JSMap.set k v m)
  = if String.eqb k' k then Some v else JSMap.get k' m.
Proof.
  induction m as [|[k0 v0] m IH]; simpl.
  - reflexivity.
  - destruct (String.eqb_spec k k0) as [->|Hk]; simpl.
    + destruct (String.eqb_spec k' k0); reflexivity.
    + rewrite IH. destruct (String.eqb_spec k' k0) as [->|].
      * destruct (String.eqb_spec k0 k) as [->|]; [contradiction|reflexivity].
      * reflexivity.
Qed.

Lemma keys_update {V} (k : string) (f : V -> V) (m : JSMap.t V) :
  JSMap.keys (JSMap.update k f m) = JSMap.keys m.
Proof.
  induction m as [|[k0 v] m IH]; simpl; [reflexivity|].
  destruct (String.eqb k k0); simpl; [reflexivity|]. f_equal. exact IH.
Qed.

Lemma has_keys {V} (k : string) (m : JSMap.t V) :
  JSMap.has k m = JSSet.has k (JSMap.keys m).
Proof.
  unfold JSMap.has. induction m as [|[k0 v] m IH]; simpl; [reflexivity|].
  destruct (String.eqb k k0); simpl; [reflexivity|exact IH].
Qed.

(** A new key goes last: on the keys, [set] is the [add] of a set. *)
Lemma keys_set {V} (k : string) (v : V) (m : JSMap.t V) :
  JSMap.keys (JSMap.set k v m) = JSSet.add k (JSMap.keys m).
Proof.
  unfold JSSet.add. rewrite <- has_keys. unfold JSMap.has.
  induction m as [|[k0 v0] m IH]; simpl; [reflexivity|].
  destruct (String.eqb k k0); simpl; [reflexivity|].
  rewrite IH. now destruct (JSMap.get k m).
Qed.

Lemma get_In {V} (k : string) (v : V) (m : JSMap.t V) :
  JSMap.get k m = Some v -> In (k, v) (JSMap.entries m) /\ In k (JSMap.keys m).
Proof.
  induction m as [|[k0 v0] m IH]; simpl; [discriminate|].
  destruct (String.eqb_spec k k0) as [->|].
  - intros [= ->]. auto.
  - intros H. destruct (IH H). auto.
Qed.

(** ** The invariant of the traversal *)

Lemma mutate_inv (f : Store -> Store) (r : Run) :
  RunInv r -> (StoreInv (now r) -> StoreInv (f (now r))) -> RunInv (mutate f r).
Proof.
  unfold RunInv, mutate. simpl. intros H Hf.
  constructor; [|assumption]. apply Hf. now inversion H.
Qed.

Lemma RunInv_now (r : Run) : RunInv r -> StoreInv (now r).
Proof. intros H. now inversion H. Qed.

Lemma setInfo_inv (n : string) (st : Store) :
  JSMap.has n (elementInfo st) = false -> StoreInv st -> StoreInv (setInfo n st).
Proof.
  intros Hn [H1 H2]. split; simpl.
  - intros n' i. rewrite get_set. destruct (String.eqb_spec n' n) as [->|].
    + intros [= <-]. split; constructor.
    + apply H1.
  - intros n' o Ho. destruct (H2 _ _ Ho) as [Hnd [i [Hi Hincl]]].
    split; [assumption|]. exists i. split; [|assumption].
    rewrite get_set. destruct (String.eqb_spec n' n) as [->|]; [|assumption].
    unfold JSMap.has in Hn. now rewrite Hi in Hn.
Qed.

Lemma setOrder_inv (n : string) (st : Store) :
  JSMap.has n (elementInfo st) = true -> StoreInv st -> StoreInv (setOrder n st).
Proof.
  intros Hn [H1 H2]. split; simpl; [assumption|].
  intros n' o. rewrite get_set. destruct (String.eqb_spec n' n) as [->|].
  - intros [= <-]. split; [constructor|].
    unfold JSMap.has in Hn. destruct (JSMap.get n (elementInfo st)) as [i|];
      [|discriminate].
    exists i. split; [reflexivity|]. intros x [].
  - apply H2.
Qed.

(** A mutation of the record at [n] that keeps its sets free of repetition
    and does not shrink its children keeps the invariant. *)
Lemma updateInfo_inv (n : string) (f : ElementInfo -> ElementInfo) (st : Store) :
  (forall i, NoDup (attributeNames i) -> NoDup (attributeNames (f i))) ->
  (forall i, NoDup (children i) -> NoDup (children (f i))) ->
  (forall i, incl (children i) (children (f i))) ->
  StoreInv st ->
  StoreInv {| elementInfo := JSMap.update n f (elementInfo st);
              elementOrder := elementOrder st |}.
Proof.
  intros Ha Hc Hi [H1 H2]. split; simpl.
  - intros n' i. rewrite get_update. destruct (String.eqb n' n).
    + destruct (JSMap.get n (elementInfo st)) as [i0|] eqn:E; [|discriminate].
      intros [= <-]. destruct (H1 _ _ E). auto.
    + apply H1.
  - intros n' o Ho. destruct (H2 _ _ Ho) as [Hnd [i [Hg Hincl]]].
    split; [assumption|]. rewrite get_update.
    destruct (String.eqb_spec n' n) as [->|].
    + rewrite Hg. exists (f i). split; [reflexivity|].
      intros x Hx. apply Hi, Hincl, Hx.
    + exists i. auto.
Qed.

Lemma addAttribute_inv (n a : string) (st : Store) :
  StoreInv st -> StoreInv (addAttribute n a st).
Proof.
  apply updateInfo_inv; simpl; intros i; auto using NoDup_add.
  apply incl_refl.
Qed.

Lemma addChild_inv (n c : string) (st : Store) :
  StoreInv st -> StoreInv (addChild n c st).
Proof.
  apply updateInfo_inv; simpl; intros i; auto using NoDup_add.
  intros x Hx. apply In_add. now right.
Qed.

Lemma setHasTextContent_inv (n : string) (st : Store) :
  StoreInv st -> StoreInv (setHasTextContent n st).
Proof.
  apply updateInfo_inv; simpl; intros i; auto. apply incl_refl.
Qed.

Lemma arrayIncludes_In (x : string) (a : list string) :
  arrayIncludes x a = true <-> In x a.
Proof. apply has_In. Qed.

(** A name may be pushed on the order of [n] when the order does not have it
    and the children of [n] do. *)
Lemma pushOrder_inv (n c : string) (st : Store) :
  arrayIncludes c (orderOf n st) = false ->
  (forall i, JSMap.get n (elementInfo st) = Some i -> In c (children i)) ->
  StoreInv st -> StoreInv (pushOrder n c st).
Proof.
  intros Hc Hin [H1 H2]. split; simpl; [assumption|].
  intros n' o. rewrite get_update. destruct (String.eqb_spec n' n) as [->|].
  - unfold orderOf in Hc.
    destruct (JSMap.get n (elementOrder st)) as [o0|] eqn:E; [|discriminate].
    intros [= <-]. destruct (H2 _ _ E) as [Hnd [i [Hg Hincl]]]. split.
    + apply NoDup_app; [assumption|repeat constructor; intros []|].
      intros y Hy [<-|[]]. apply arrayIncludes_In in Hy. congruence.
    + exists i. split; [assumption|]. intros x Hx.
      apply in_app_iff in Hx as [Hx|[<-|[]]]; auto.
  - apply H2.
Qed.

Lemma addChild_has (n c : string) (st : Store) (i : ElementInfo) :
  JSMap.get n (elementInfo (addChild n c st)) = Some i -> In c (children i).
Proof.
  simpl. rewrite get_update, String.eqb_refl.
  destruct (JSMap.get n (elementInfo st)); [|discriminate].
  intros [= <-]. simpl. apply In_add. now left.
Qed.

Lemma visitChild_inv (processChild : Node -> Run -> Run) (n : string)
  (s : JSSet.t) (r : Run) (c : Node) :
  (forall r', RunInv r' -> RunInv (processChild c r')) ->
  RunInv r -> RunInv (snd (visitChild processChild n (s, r) c)).
Proof.
  intros Hp Hr. unfold visitChild.
  destruct c as [childName attrs cs | v | v | t v | v]; try assumption.
  - pose proof (addChild_has n childName (now r)) as Hhas.
    remember (mutate (addChild n childName) r) as r1 eqn:Er1.
    assert (Hnow : now r1 = addChild n childName (now r)) by now subst.
    rewrite <- Hnow in Hhas.
    assert (H1 : RunInv r1).
    { subst r1. apply mutate_inv; [assumption|apply addChild_inv]. }
    assert (Hpush : arrayIncludes childName (orderOf n (now r1)) = false ->
                    RunInv (mutate (pushOrder n childName) r1)).
    { intros Hc. apply mutate_inv; [assumption|]. now apply pushOrder_inv. }
    clear Er1 Hnow.
    destruct (Nat.eqb (List.length (orderOf n (now r1))) 0) eqn:El.
    + assert (Hc : arrayIncludes childName (orderOf n (now r1)) = false).
      { destruct (orderOf n (now r1)); [reflexivity|discriminate]. }
      rewrite Hc. destruct (JSSet.has childName s); simpl; auto.
    + rewrite andb_false_r.
      destruct (arrayIncludes childName (orderOf n (now r1))) eqn:Hc;
        simpl; auto.
  - destruct (negb (trim v =? EmptyString)%string); simpl; [|assumption].
    apply mutate_inv; [assumption|apply setHasTextContent_inv].
Qed.

Lemma forEach_inv (processChild : Node -> Run -> Run) (n : string)
  (cs : list Node) :
  Forall (fun c => forall r', RunInv r' -> RunInv (processChild c r')) cs ->
  forall s r, RunInv r ->
    RunInv (snd (fold_left (visitChild processChild n) cs (s, r))).
Proof.
  induction 1 as [|c cs Hc _ IH]; intros s r Hr; cbn [fold_left];
    [assumption|].
  pose proof (visitChild_inv processChild n s r c Hc Hr) as H.
  destruct (visitChild processChild n (s, r) c) as [s' r']. now apply IH.
Qed.

Lemma attributes_inv (n : string) (attrs : list Attr) (r : Run) :
  RunInv r ->
  RunInv (fold_left (fun r a => mutate (addAttribute n (name a)) r) attrs r).
Proof.
  revert r; induction attrs as [|a attrs IH]; intros r Hr; simpl; [assumption|].
  apply IH, mutate_inv; [assumption|apply addAttribute_inv].
Qed.

Lemma ensureRecord_inv (n : string) (r : Run) :
  RunInv r ->
  RunInv (if JSMap.has n (elementInfo (now r)) then r
          else mutate (setOrder n) (mutate (setInfo n) r)).
Proof.
  intros Hr. destruct (JSMap.has n (elementInfo (now r))) eqn:E; [assumption|].
  apply mutate_inv.
  - apply mutate_inv; [assumption|now apply setInfo_inv].
  - apply setOrder_inv. simpl. unfold JSMap.has.
    now rewrite get_set, String.eqb_refl.
Qed.

Lemma processNode_inv (node : Node) :
  forall parentName r, RunInv r -> RunInv (processNode node parentName r).
Proof.
  induction node as [n attrs cs IH | v | v | t v | v] using Node_ind;
    intros parentName r Hr; simpl; try assumption.
  - apply forEach_inv.
    + eapply Forall_impl; [|exact IH]. intros c Hc r'. apply Hc.
    + apply attributes_inv, ensureRecord_inv, Hr.
  - destruct parentName as [p|]; [|assumption].
    destruct (_ && _ && _); [|assumption].
    apply mutate_inv; [assumption|apply setHasTextContent_inv].
Qed.

Lemma start_inv : RunInv start.
Proof.
  repeat constructor; simpl; discriminate.
Qed.

Lemma analyse_inv (rootElement : Node) : RunInv (analyse rootElement).
Proof. apply processNode_inv, start_inv. Qed.

(** ** The keys of [elementInfo] are in order of first encounter *)

Lemma addAll_app (l1 l2 : list string) (s : JSSet.t) :
  JSSet.addAll (l1 ++ l2) s = JSSet.addAll l2 (JSSet.addAll l1 s).
Proof. apply fold_left_app. Qed.

Lemma visitChild_keys (processChild : Node -> Run -> Run) (n : string)
  (s : JSSet.t) (r : Run) (c : Node) :
  (forall r', JSMap.keys (elementInfo (now (processChild c r')))
              = JSSet.addAll (tagNames c) (JSMap.keys (elementInfo (now r')))) ->
  JSMap.keys (elementInfo (now (snd (visitChild processChild n (s, r) c))))
  = JSSet.addAll (tagNames c) (JSMap.keys (elementInfo (now r))).
Proof.
  intros Hp. unfold visitChild.
  destruct c as [childName attrs cs | v | v | t v | v]; try reflexivity.
  - remember (mutate (addChild n childName) r) as r1 eqn:Er1.
    assert (H1 : JSMap.keys (elementInfo (now r1))
                 = JSMap.keys (elementInfo (now r))).
    { subst r1. simpl. apply keys_update. }
    clear Er1. rewrite <- H1.
    destruct (_ || _); [destruct (_ && _); [|destruct (negb _)]|];
      cbn [snd]; rewrite Hp; reflexivity.
  - destruct (negb _); [|reflexivity]. simpl. now rewrite keys_update.
Qed.

Lemma forEach_keys (processChild : Node -> Run -> Run) (n : string)
  (cs : list Node) :
  Forall (fun c => forall r',
              JSMap.keys (elementInfo (now (processChild c r')))
              = JSSet.addAll (tagNames c) (JSMap.keys (elementInfo (now r')))) cs ->
  forall s r,
    JSMap.keys (elementInfo
                  (now (snd (fold_left (visitChild processChild n) cs (s, r)))))
    = JSSet.addAll (flat_map tagNames cs) (JSMap.keys (elementInfo (now r))).
Proof.
  induction 1 as [|c cs Hc _ IH]; intros s r; cbn [fold_left flat_map];
    [reflexivity|].
  pose proof (visitChild_keys processChild n s r c Hc) as H.
  destruct (visitChild processChild n (s, r) c) as [s' r'].
  now rewrite IH, addAll_app, <- H.
Qed.

Lemma attributes_keys (n : string) (attrs : list Attr) (r : Run) :
  JSMap.keys (elementInfo
                (now (fold_left (fun r a => mutate (addAttribute n (name a)) r)
                                attrs r)))
  = JSMap.keys (elementInfo (now r)).
Proof.
  revert r; induction attrs as [|a attrs IH]; intros r; simpl; [reflexivity|].
  rewrite IH. simpl. apply keys_update.
Qed.

Lemma ensureRecord_keys (n : string) (r : Run) :
  JSMap.keys (elementInfo
                (now (if JSMap.has n (elementInfo (now r)) then r
                      else mutate (setOrder n) (mutate (setInfo n) r))))
  = JSSet.add n (JSMap.keys (elementInfo (now r))).
Proof.
  destruct (JSMap.has n (elementInfo (now r))) eqn:E.
  - unfold JSSet.add. now rewrite <- has_keys, E.
  - simpl. apply keys_set.
Qed.

Lemma processNode_keys (node : Node) :
  forall parentName r,
    JSMap.keys (elementInfo (now (processNode node parentName r)))
    = JSSet.addAll (tagNames node) (JSMap.keys (elementInfo (now r))).
Proof.
  induction node as [n attrs cs IH | v | v | t v | v] using Node_ind;
    intros parentName r; try reflexivity.
  - cbn [processNode tagNames]. unfold JSSet.addAll. cbn [fold_left].
    fold (JSSet.addAll (flat_map tagNames cs)).
    rewrite forEach_keys.
    + now rewrite attributes_keys, ensureRecord_keys.
    + eapply Forall_impl; [|exact IH]. intros c Hc r'. apply Hc.
  - simpl. destruct parentName as [p|]; [|reflexivity].
    destruct (_ && _ && _); [|reflexivity]. simpl. apply keys_update.
Qed.

Lemma analyse_keys (rootElement : Node) :
  JSMap.keys (elementInfo (now (analyse rootElement)))
  = JSSet.ofList (tagNames rootElement).
Proof. apply processNode_keys. Qed.

(** ** Between two visits, every record has its order *)

Section Preserved.
Variable Q : Store -> Prop.
Hypothesis Q_ensure : forall n st,
    JSMap.has n (elementInfo st) = false -> Q st -> Q (setOrder n (setInfo n st)).
Hypothesis Q_attribute : forall n a st, Q st -> Q (addAttribute n a st).
Hypothesis Q_child : forall n c st, Q st -> Q (addChild n c st).
Hypothesis Q_push : forall n c st, Q st -> Q (pushOrder n c st).
Hypothesis Q_text : forall n st, Q st -> Q (setHasTextContent n st).

Lemma visitChild_preserves (processChild : Node -> Run -> Run) (n : string)
  (s : JSSet.t) (r : Run) (c : Node) :
  (forall r', Q (now r') -> Q (now (processChild c r'))) ->
  Q (now r) -> Q (now (snd (visitChild processChild n (s, r) c))).
Proof.
  intros Hp Hr. unfold visitChild.
  destruct c as [childName attrs cs | v | v | t v | v]; try assumption.
  - destruct (_ || _); [destruct (_ && _); [|destruct (negb _)]|];
      cbn [snd]; apply Hp; cbn [now mutate]; auto.
  - destruct (negb _); [|assumption]. cbn [snd now mutate]. auto.
Qed.

Lemma forEach_preserves (processChild : Node -> Run -> Run) (n : string)
  (cs : list Node) :
  Forall (fun c => forall r', Q (now r') -> Q (now (processChild c r'))) cs ->
  forall s r, Q (now r) ->
    Q (now (snd (fold_left (visitChild processChild n) cs (s, r)))).
Proof.
  induction 1 as [|c cs Hc _ IH]; intros s r Hr; cbn [fold_left];
    [assumption|].
  pose proof (visitChild_preserves processChild n s r c Hc Hr) as H.
  destruct (visitChild processChild n (s, r) c) as [s' r']. now apply IH.
Qed.

Lemma attributes_preserves (n : string) (attrs : list Attr) (r : Run) :
  Q (now r) ->
  Q (now (fold_left (fun r a => mutate (addAttribute n (name a)) r) attrs r)).
Proof.
  revert r; induction attrs as [|a attrs IH]; intros r Hr; simpl; [assumption|].
  apply IH. cbn [now mutate]. auto.
Qed.

Lemma processNode_preserves (node : Node) :
  forall parentName r, Q (now r) -> Q (now (processNode node parentName r)).
Proof.
  induction node as [n attrs cs IH | v | v | t v | v] using Node_ind;
    intros parentName r Hr; simpl; try assumption.
  - apply forEach_preserves.
    + eapply Forall_impl; [|exact IH]. intros c Hc r'. apply Hc.
    + apply attributes_preserves.
      destruct (JSMap.has n (elementInfo (now r))) eqn:E; [assumption|].
      cbn [now mutate]. auto.
  - destruct parentName as [p|]; [|assumption].
    destruct (_ && _ && _); [|assumption]. cbn [now mutate]. auto.
Qed.
End Preserved.

Lemma has_update {V} (k k' : string) (f : V -> V) (m : JSMap.t V) :
  JSMap.has k' (JSMap.update k f m) = JSMap.has k' m.
Proof.
  unfold JSMap.has. rewrite get_update.
  destruct (String.eqb_spec k' k) as [->|]; [|reflexivity].
  now destruct (JSMap.get k m).
Qed.

Lemma has_set {V} (k k' : string) (v : V) (m : JSMap.t V) :
  JSMap.has k' (JSMap.set k v m) = String.eqb k' k || JSMap.has k' m.
Proof.
  unfold JSMap.has. rewrite get_set. now destruct (String.eqb k' k).
Qed.

Lemma analyse_paired (rootElement : Node) : Paired (now (analyse rootElement)).
Proof.
  unfold analyse. apply (processNode_preserves Paired); unfold Paired; simpl.
  - intros n st _ H k. rewrite !has_set.
    destruct (String.eqb k n); [reflexivity|apply H].
  - intros n a st H k. rewrite has_update. apply H.
  - intros n c st H k. rewrite has_update. apply H.
  - intros n c st H k. rewrite has_update. apply H.
  - intros n st H k. rewrite has_update. apply H.
  - discriminate.
Qed.

(** ** The records hold what the document shows *)

Lemma fieldOf_ensure (field : ElementInfo -> JSSet.t) (n tag : string) (st : Store) :
  field newInfo = [] ->
  JSMap.has n (elementInfo st) = false ->
  fieldOf field (setOrder n (setInfo n st)) tag = fieldOf field st tag.
Proof.
  intros Hf Hn. unfold fieldOf. simpl. rewrite get_set.
  destruct (String.eqb_spec tag n) as [->|]; [|reflexivity].
  unfold JSMap.has in Hn. now destruct (JSMap.get n (elementInfo st)).
Qed.

Lemma fieldOf_update (field : ElementInfo -> JSSet.t) (f : ElementInfo -> ElementInfo)
  (n tag : string) (st : Store) :
  (forall i, field (f i) = field i) ->
  fieldOf field {| elementInfo := JSMap.update n f (elementInfo st);
                   elementOrder := elementOrder st |} tag
  = fieldOf field st tag.
Proof.
  intros Hf. unfold fieldOf. simpl. rewrite get_update.
  destruct (String.eqb_spec tag n) as [->|]; [|reflexivity].
  destruct (JSMap.get n (elementInfo st)); simpl; auto.
Qed.

Lemma has_true_get {V} (k : string) (m : JSMap.t V) :
  JSMap.has k m = true -> exists v, JSMap.get k m = Some v.
Proof.
  unfold JSMap.has. destruct (JSMap.get k m); [eauto|discriminate].
Qed.

Lemma attributes_addAttribute (n x tag a : string) (st : Store) :
  JSMap.has n (elementInfo st) = true ->
  In a (fieldOf attributeNames (addAttribute n x st) tag)
  <-> In a (fieldOf attributeNames st tag) \/ (n = tag /\ a = x).
Proof.
  intros Hn. apply has_true_get in Hn as [i Hi].
  unfold fieldOf. simpl. rewrite get_update.
  destruct (String.eqb_spec tag n) as [->|Hne].
  - rewrite Hi. simpl. rewrite In_add. intuition.
  - intuition congruence.
Qed.

Lemma children_addChild (n c tag a : string) (st : Store) :
  JSMap.has n (elementInfo st) = true ->
  In a (fieldOf children (addChild n c st) tag)
  <-> In a (fieldOf children st tag) \/ (n = tag /\ a = c).
Proof.
  intros Hn. apply has_true_get in Hn as [i Hi].
  unfold fieldOf. simpl. rewrite get_update.
  destruct (String.eqb_spec tag n) as [->|Hne].
  - rewrite Hi. simpl. rewrite In_add. intuition.
  - intuition congruence.
Qed.

(** A record, once made, stays. *)
Ltac keeps_record :=
  simpl; intros;
  rewrite ?has_set, ?has_update;
  try match goal with H : _ = true |- _ => rewrite H end;
  auto using orb_true_r.

Lemma processNode_keeps_record (n : string) (node : Node) parentName (r : Run) :
  JSMap.has n (elementInfo (now r)) = true ->
  JSMap.has n (elementInfo (now (processNode node parentName r))) = true.
Proof.
  apply (processNode_preserves
           (fun st => JSMap.has n (elementInfo st) = true)); keeps_record.
Qed.

Lemma visitChild_keeps_record (n m : string) (s : JSSet.t) (r : Run) (c : Node) :
  JSMap.has n (elementInfo (now r)) = true ->
  JSMap.has n
    (elementInfo
       (now (snd (visitChild (fun c => processNode c (Some m)) m (s, r) c))))
  = true.
Proof.
  apply (visitChild_preserves
           (fun st => JSMap.has n (elementInfo st) = true));
    first [intros r'; apply processNode_keeps_record | keeps_record].
Qed.

Lemma ensureRecord_has (n : string) (r : Run) :
  JSMap.has n
    (elementInfo (now (if JSMap.has n (elementInfo (now r)) then r
                       else mutate (setOrder n) (mutate (setInfo n) r))))
  = true.
Proof.
  destruct (JSMap.has n (elementInfo (now r))) eqn:E; [exact E|].
  simpl. now rewrite has_set, String.eqb_refl.
Qed.

Lemma ensureRecord_field (field : ElementInfo -> JSSet.t) (n tag : string) (r : Run) :
  field newInfo = [] ->
  fieldOf field
    (now (if JSMap.has n (elementInfo (now r)) then r
          else mutate (setOrder n) (mutate (setInfo n) r))) tag
  = fieldOf field (now r) tag.
Proof.
  intros Hf. destruct (JSMap.has n (elementInfo (now r))) eqn:E; [reflexivity|].
  cbn [now mutate]. now apply fieldOf_ensure.
Qed.

Lemma attributes_setHasTextContent (n tag : string) (st : Store) :
  fieldOf attributeNames (setHasTextContent n st) tag
  = fieldOf attributeNames st tag.
Proof. now apply fieldOf_update. Qed.

Lemma children_setHasTextContent (n tag : string) (st : Store) :
  fieldOf children (setHasTextContent n st) tag = fieldOf children st tag.
Proof. now apply fieldOf_update. Qed.

Lemma attributes_addChild (n c tag : string) (st : Store) :
  fieldOf attributeNames (addChild n c st) tag = fieldOf attributeNames st tag.
Proof. now apply fieldOf_update. Qed.

Lemma children_addAttribute (n a tag : string) (st : Store) :
  fieldOf children (addAttribute n a st) tag = fieldOf children st tag.
Proof. now apply fieldOf_update. Qed.

Lemma attributes_fold (n tag a : string) (attrs : list Attr) (r : Run) :
  JSMap.has n (elementInfo (now r)) = true ->
  let r' := fold_left (fun r x => mutate (addAttribute n (name x)) r) attrs r in
  JSMap.has n (elementInfo (now r')) = true
  /\ fieldOf children (now r') tag = fieldOf children (now r) tag
  /\ (In a (fieldOf attributeNames (now r') tag)
      <-> In a (fieldOf attributeNames (now r) tag)
          \/ (n = tag /\ In a (map name attrs))).
Proof.
  revert r; induction attrs as [|x attrs IH]; intros r Hn; cbn zeta.
  - simpl. split; [assumption|]. split; [reflexivity|]. tauto.
  - cbn [fold_left].
    assert (Hn' : JSMap.has n (elementInfo (now (mutate (addAttribute n (name x)) r)))
                  = true) by (simpl; now rewrite has_update).
    destruct (IH _ Hn') as [H1 [H2 H3]]. split; [exact H1|]. split.
    + rewrite H2. cbn [now mutate]. apply children_addAttribute.
    + rewrite H3. cbn [now mutate]. rewrite attributes_addAttribute by assumption.
      simpl. intuition (subst; auto).
Qed.

Lemma visitChild_attributes (processChild : Node -> Run -> Run)
  (n tag a : string) (s : JSSet.t) (r : Run) (c : Node) :
  (forall r', In a (fieldOf attributeNames (now (processChild c r')) tag)
              <-> In a (fieldOf attributeNames (now r') tag)
                  \/ In a (attributeNamesIn tag c)) ->
  In a (fieldOf attributeNames (now (snd (visitChild processChild n (s, r) c))) tag)
  <-> In a (fieldOf attributeNames (now r) tag) \/ In a (attributeNamesIn tag c).
Proof.
  intros Hp. unfold visitChild.
  destruct c as [childName attrs cs | v | v | t v | v];
    try (simpl; tauto).
  - assert (Hpush : forall st, fieldOf attributeNames (pushOrder n childName st) tag
                               = fieldOf attributeNames st tag) by reflexivity.
    destruct (_ || _); [destruct (_ && _); [|destruct (negb _)]|];
      cbn [snd]; rewrite Hp; cbn [now mutate];
      rewrite ?Hpush, attributes_addChild; reflexivity.
  - destruct (negb _); [|simpl; tauto]. cbn [snd now mutate].
    rewrite attributes_setHasTextContent. simpl. tauto.
Qed.

Lemma forEach_attributes (processChild : Node -> Run -> Run)
  (n tag a : string) (cs : list Node) :
  Forall (fun c => forall r',
              In a (fieldOf attributeNames (now (processChild c r')) tag)
              <-> In a (fieldOf attributeNames (now r') tag)
                  \/ In a (attributeNamesIn tag c)) cs ->
  forall s r,
    In a (fieldOf attributeNames
            (now (snd (fold_left (visitChild processChild n) cs (s, r)))) tag)
    <-> In a (fieldOf attributeNames (now r) tag)
        \/ In a (flat_map (attributeNamesIn tag) cs).
Proof.
  induction 1 as [|c cs Hc _ IH]; intros s r; cbn [fold_left flat_map].
  - simpl. tauto.
  - pose proof (visitChild_attributes processChild n tag a s r c Hc) as H.
    destruct (visitChild processChild n (s, r) c) as [s' r'].
    rewrite IH, in_app_iff. cbn [snd] in H. tauto.
Qed.

(** The attribute names of a record are those that the document shows on
    the elements of the tag. *)
Lemma processNode_attributes (tag a : string) (node : Node) :
  forall parentName r,
    In a (fieldOf attributeNames (now (processNode node parentName r)) tag)
    <-> In a (fieldOf attributeNames (now r) tag) \/ In a (attributeNamesIn tag node).
Proof.
  induction node as [n attrs cs IH | v | v | t v | v] using Node_ind;
    intros parentName r; try (simpl; tauto).
  - cbn [processNode attributeNamesIn].
    rewrite forEach_attributes
      by (eapply Forall_impl; [|exact IH]; intros c Hc r'; apply Hc).
    destruct (attributes_fold n tag a attrs _ (ensureRecord_has n r))
      as [_ [_ H]].
    cbv zeta in H. rewrite H, ensureRecord_field by reflexivity.
    rewrite in_app_iff.
    destruct (String.eqb_spec n tag); simpl; intuition.
  - simpl. destruct parentName as [p|]; [|tauto].
    destruct (_ && _ && _); [|tauto]. cbn [now mutate].
    rewrite attributes_setHasTextContent. tauto.
Qed.

Lemma analyse_attributes (rootElement : Node) (tag : string) (info : ElementInfo) :
  JSMap.get tag (elementInfo (now (analyse rootElement))) = Some info ->
  forall a, In a (attributeNames info)
            <-> In a (attributeNamesIn tag rootElement).
Proof.
  intros Hg a.
  pose proof (processNode_attributes tag a rootElement None start) as H.
  fold (analyse rootElement) in H. unfold fieldOf in H at 1.
  rewrite Hg in H. rewrite H. simpl. tauto.
Qed.

Lemma childTagNames_cons (a : string) (c : Node) (cs : list Node) :
  In a (childTagNames (c :: cs))
  <-> In a (childTagNames [c]) \/ In a (childTagNames cs).
Proof.
  unfold childTagNames. simpl. rewrite app_nil_r. apply in_app_iff.
Qed.

Lemma visitChild_children (processChild : Node -> Run -> Run)
  (n tag a : string) (s : JSSet.t) (r : Run) (c : Node) :
  JSMap.has n (elementInfo (now r)) = true ->
  (forall r', In a (fieldOf children (now (processChild c r')) tag)
              <-> In a (fieldOf children (now r') tag)
                  \/ In a (childNamesIn tag c)) ->
  In a (fieldOf children (now (snd (visitChild processChild n (s, r) c))) tag)
  <-> In a (fieldOf children (now r) tag)
      \/ (n = tag /\ In a (childTagNames [c]))
      \/ In a (childNamesIn tag c).
Proof.
  intros Hn Hp. unfold visitChild.
  destruct c as [childName attrs cs | v | v | t v | v];
    try (simpl; tauto).
  - assert (Hpush : forall st, fieldOf children (pushOrder n childName st) tag
                               = fieldOf children st tag) by reflexivity.
    pose proof (children_addChild n childName tag a (now r) Hn) as Hadd.
    change (childTagNames [Element childName attrs cs]) with [childName].
    destruct (_ || _); [destruct (_ && _); [|destruct (negb _)]|];
      cbn [snd]; rewrite Hp; cbn [now mutate];
      rewrite ?Hpush, Hadd; simpl; intuition.
  - destruct (negb _); [|simpl; tauto]. cbn [snd now mutate].
    rewrite children_setHasTextContent. simpl. tauto.
Qed.

Lemma forEach_children (n tag a : string) (cs : list Node) :
  Forall (fun c => forall p r',
              In a (fieldOf children (now (processNode c p r')) tag)
              <-> In a (fieldOf children (now r') tag)
                  \/ In a (childNamesIn tag c)) cs ->
  forall s r,
    JSMap.has n (elementInfo (now r)) = true ->
    In a (fieldOf children
            (now (snd (fold_left
                         (visitChild (fun c => processNode c (Some n)) n)
                         cs (s, r)))) tag)
    <-> In a (fieldOf children (now r) tag)
        \/ (n = tag /\ In a (childTagNames cs))
        \/ In a (flat_map (childNamesIn tag) cs).
Proof.
  induction 1 as [|c cs Hc _ IH]; intros s r Hn; cbn [fold_left flat_map].
  - simpl. tauto.
  - pose proof (visitChild_children (fun c => processNode c (Some n))
                  n tag a s r c Hn (fun r' => Hc (Some n) r')) as H.
    pose proof (visitChild_keeps_record n n s r c Hn) as Hn'.
    destruct (visitChild (fun c => processNode c (Some n)) n (s, r) c)
      as [s' r'].
    cbn [snd] in H, Hn'.
    rewrite (IH s' r' Hn'), H, in_app_iff, (childTagNames_cons a c cs). tauto.
Qed.

(** The children of a record are the tag names that the document shows
    among the element children of the elements of the tag. *)
Lemma processNode_children (tag a : string) (node : Node) :
  forall parentName r,
    In a (fieldOf children (now (processNode node parentName r)) tag)
    <-> In a (fieldOf children (now r) tag) \/ In a (childNamesIn tag node).
Proof.
  induction node as [n attrs cs IH | v | v | t v | v] using Node_ind;
    intros parentName r; try (simpl; tauto).
  - cbn [processNode childNamesIn].
    destruct (attributes_fold n tag a attrs _ (ensureRecord_has n r))
      as [Hn [H _]].
    cbv zeta in Hn, H.
    rewrite (forEach_children n tag a cs IH _ _ Hn).
    rewrite H, ensureRecord_field by reflexivity.
    rewrite in_app_iff.
    destruct (String.eqb_spec n tag); simpl; intuition.
  - simpl. destruct parentName as [p|]; [|tauto].
    destruct (_ && _ && _); [|tauto]. cbn [now mutate].
    rewrite children_setHasTextContent. tauto.
Qed.

Lemma analyse_children (rootElement : Node) (tag : string) (info : ElementInfo) :
  JSMap.get tag (elementInfo (now (analyse rootElement))) = Some info ->
  forall c, In c (children info) <-> In c (childNamesIn tag rootElement).
Proof.
  intros Hg c.
  pose proof (processNode_children tag c rootElement None start) as H.
  fold (analyse rootElement) in H. unfold fieldOf in H at 1.
  rewrite Hg in H. rewrite H. simpl. tauto.
Qed.

(** ** The shapes of a type definition *)

(** The names that the sequence of a type definition refers to. *)
Lemma typeDefinition_sequence (st : Store) (tag : string) (info : ElementInfo) :
  children info <> [] ->
  typeDefinition st (tag, info)
  = "  <xs:complexType"
    +++ typeNameAttribute tag (hasTextContent info) +++ nl
    +++ "    <xs:sequence>" +++ nl
    +++ joinAll (map childReference
                   (JSSet.ofList
                      (match JSMap.get tag (elementOrder st) with
                       | Some order => order
                       | None => children info
                       end ++ children info)))
    +++ "    </xs:sequence>" +++ nl
    +++ joinAll (map (attributeDeclaration "    ") (attributeNames info))
    +++ "  </xs:complexType>" +++ nl +++ nl.
Proof.
  intros Hc. unfold typeDefinition, defineComplexType.
  assert (E : Nat.ltb 0 (JSSet.size (children info)) = true).
  { destruct (children info); [contradiction|reflexivity]. }
  rewrite E. cbn [orb andb]. rewrite andb_true_r, !fold_left_append.
  now rewrite !append_assoc.
Qed.

Lemma references_spec (st : Store) (tag : string) (info : ElementInfo) :
  StoreInv st ->
  JSMap.get tag (elementInfo st) = Some info ->
  let references :=
    JSSet.ofList (match JSMap.get tag (elementOrder st) with
                  | Some order => order
                  | None => children info
                  end ++ children info) in
  NoDup references
  /\ (forall c, In c references <-> In c (children info))
  /\ exists later, references = orderOf tag st ++ later.
Proof.
  intros [H1 H2] Hg references. subst references. unfold orderOf.
  destruct (H1 _ _ Hg) as [_ Hch].
  split; [apply fold_add_NoDup; constructor|].
  destruct (JSMap.get tag (elementOrder st)) as [o|] eqn:Eo.
  - destruct (H2 _ _ Eo) as [Ho [i [Hi Hincl]]].
    assert (i = info) by congruence. subst i. split.
    + intros c. unfold JSSet.ofList, JSSet.addAll. rewrite fold_add_In.
      rewrite in_app_iff. simpl. specialize (Hincl c). tauto.
    + rewrite ofList_order_children by assumption. eauto.
  - split; [|simpl; eauto].
    intros c. unfold JSSet.ofList, JSSet.addAll. rewrite fold_add_In.
    rewrite in_app_iff. simpl. tauto.
Qed.

(** The type definition of an entry is a piece of the printed schema. *)
Lemma typeDefinition_printed (st : Store) (tag : string) (info : ElementInfo) :
  JSMap.get tag (elementInfo st) = Some info ->
  exists before after,
    printSchema st = before +++ typeDefinition st (tag, info) +++ after.
Proof.
  intros Hg. apply get_In in Hg as [Hin _].
  destruct (joinAll_split (typeDefinition st) _ _ Hin) as [b [a E]].
  rewrite printSchema_layout, E.
  exists (xmlDeclaration +++ schemaStartTag
          +++ ("  <!-- Global Element Declarations -->" +++ nl)
          +++ joinAll (map (elementDeclaration st) (JSMap.keys (elementInfo st)))
          +++ nl +++ ("  <!-- Complex Type Definitions -->" +++ nl) +++ b),
         (a +++ "</xs:schema>" +++ nl).
  now rewrite !append_assoc.
Qed.

(** The declaration of a key is a piece of the printed schema. *)
Lemma elementDeclaration_printed (st : Store) (tag : string) (info : ElementInfo) :
  JSMap.get tag (elementInfo st) = Some info ->
  exists before after,
    printSchema st = before +++ elementDeclaration st tag +++ after.
Proof.
  intros Hg. apply get_In in Hg as [_ Hin].
  destruct (joinAll_split (elementDeclaration st) _ _ Hin) as [b [a E]].
  rewrite printSchema_layout, E.
  exists (xmlDeclaration +++ schemaStartTag
          +++ ("  <!-- Global Element Declarations -->" +++ nl) +++ b),
         (a +++ nl +++ ("  <!-- Complex Type Definitions -->" +++ nl)
          +++ joinAll (map (typeDefinition st) (JSMap.entries (elementInfo st)))
          +++ "</xs:schema>" +++ nl).
  now rewrite !append_assoc.
Qed.

Lemma In_get {V} (k : string) (v : V) (m : JSMap.t V) :
  NoDup (JSMap.keys m) -> In (k, v) (JSMap.entries m) -> JSMap.get k m = Some v.
Proof.
  induction m as [|[k0 v0] m IH]; simpl; [intros _ []|].
  intros Hnd [[= -> ->]|Hin].
  - now rewrite String.eqb_refl.
  - inversion Hnd as [|? ? Hk Hnd']; subst.
    destruct (String.eqb_spec k k0) as [->|]; [|now apply IH].
    exfalso. apply Hk. change (In (fst (k0, v)) (map fst m)).
    now apply in_map.
Qed.

Lemma analyse_keys_NoDup (rootElement : Node) :
  NoDup (JSMap.keys (elementInfo (now (analyse rootElement)))).
Proof.
  rewrite analyse_keys. apply fold_add_NoDup. constructor.
Qed.

Lemma size_nil_iff (s : JSSet.t) : Nat.ltb 0 (JSSet.size s) = false <-> s = [].
Proof.
  destruct s; simpl; split; intros H; try reflexivity; discriminate.
Qed.

Lemma elementDeclaration_string (st : Store) (tag : string) (info : ElementInfo) :
  JSMap.get tag (elementInfo st) = Some info ->
  hasTextContent info = true -> attributeNames info = [] -> children info = [] ->
  elementDeclaration st tag
  = "  <xs:element name=" +++ dq +++ tag +++ dq
    +++ " type=" +++ dq +++ "xs:string" +++ dq +++ "/>" +++ nl.
Proof.
  intros Hg Ht Ha Hc. unfold elementDeclaration, declareElement.
  now rewrite Hg, Ht, Ha, Hc.
Qed.

(** Every other record is declared with the generated type. *)
Lemma elementDeclaration_generated (st : Store) (tag : string) (info : ElementInfo) :
  JSMap.get tag (elementInfo st) = Some info ->
  hasTextContent info = false \/ attributeNames info <> []
  \/ children info <> [] ->
  elementDeclaration st tag
  = "  <xs:element name=" +++ dq +++ tag +++ dq
    +++ " type=" +++ dq +++ "tns:" +++ tag +++ "Type" +++ dq +++ "/>" +++ nl.
Proof.
  intros Hg H. unfold elementDeclaration, declareElement. rewrite Hg.
  destruct (_ && _ && _) eqn:E; [|reflexivity].
  apply andb_prop in E as [E Ht]. apply andb_prop in E as [Ec Ea].
  apply negb_true_iff, size_nil_iff in Ec, Ea.
  destruct H as [H|[H|H]]; congruence.
Qed.

Lemma typeDefinition_none (st : Store) (tag : string) (info : ElementInfo) :
  hasTextContent info = true -> attributeNames info = [] -> children info = [] ->
  typeDefinition st (tag, info) = EmptyString.
Proof.
  intros Ht Ha Hc. unfold typeDefinition, defineComplexType.
  now rewrite Ht, Ha, Hc.
Qed.

Lemma typeDefinition_simpleContent (st : Store) (tag : string) (info : ElementInfo) :
  hasTextContent info = true -> children info = [] -> attributeNames info <> [] ->
  typeDefinition st (tag, info)
  = "  <xs:complexType name=" +++ dq +++ tag +++ "Type" +++ dq +++ ">" +++ nl
    +++ "    <xs:simpleContent>" +++ nl
    +++ "      <xs:extension base=" +++ dq +++ "xs:string" +++ dq +++ ">" +++ nl
    +++ joinAll (map (attributeDeclaration "        ") (attributeNames info))
    +++ "      </xs:extension>" +++ nl
    +++ "    </xs:simpleContent>" +++ nl
    +++ "  </xs:complexType>" +++ nl +++ nl.
Proof.
  intros Ht Hc Ha. unfold typeDefinition, defineComplexType.
  assert (E : Nat.ltb 0 (JSSet.size (attributeNames info)) = true).
  { destruct (attributeNames info); [contradiction|reflexivity]. }
  assert (E' : Nat.ltb 0 (JSSet.size (children info)) = false) by now rewrite Hc.
  rewrite E, E', Ht. cbn [orb andb negb].
  rewrite replace_same, fold_left_append. unfold typeNameAttribute.
  now rewrite !append_assoc.
Qed.

Lemma typeDefinition_empty (st : Store) (tag : string) (info : ElementInfo) :
  hasTextContent info = false -> children info = [] ->
  typeDefinition st (tag, info)
  = "  <xs:complexType name=" +++ dq +++ tag +++ "Type" +++ dq +++ ">" +++ nl
    +++ "    <xs:sequence minOccurs=" +++ dq +++ "0" +++ dq +++ "/>" +++ nl
    +++ joinAll (map (attributeDeclaration "    ") (attributeNames info))
    +++ "  </xs:complexType>" +++ nl +++ nl.
Proof.
  intros Ht Hc. unfold typeDefinition, defineComplexType.
  assert (E : Nat.ltb 0 (JSSet.size (children info)) = false) by now rewrite Hc.
  rewrite E, Ht.
  destruct (Nat.ltb 0 (JSSet.size (attributeNames info)));
    cbn [orb andb negb]; rewrite fold_left_append;
    unfold typeNameAttribute; now rewrite !append_assoc.
Qed.

Lemma keys_get {V} (k : string) (m : JSMap.t V) :
  In k (JSMap.keys m) -> exists v, JSMap.get k m = Some v.
Proof.
  induction m as [|[k0 v0] m IH]; simpl; [intros []|].
  destruct (String.eqb_spec k k0) as [->|]; [eauto|].
  intros [E|H]; [congruence|auto].
Qed.

(** A type definition is empty or runs from the opening tag of the type
    named after the element to the closing tag. *)
Lemma typeDefinition_shape (st : Store) (tag : string) (info : ElementInfo) :
  typeDefinition st (tag, info) = EmptyString
  \/ exists mixed body,
      (mixed = EmptyString \/ mixed = " mixed=" +++ dq +++ "true" +++ dq)
      /\ typeDefinition st (tag, info)
         = "  <xs:complexType name=" +++ dq +++ tag +++ "Type" +++ dq
           +++ mixed +++ ">" +++ nl +++ body
           +++ "  </xs:complexType>" +++ nl +++ nl.
Proof.
  destruct (children info) as [|c cs] eqn:Hc.
  - destruct (hasTextContent info) eqn:Ht.
    + destruct (attributeNames info) as [|a l] eqn:Ha.
      * left. now apply typeDefinition_none.
      * right. exists EmptyString.
        exists ("    <xs:simpleContent>" +++ nl
                +++ "      <xs:extension base=" +++ dq +++ "xs:string" +++ dq
                +++ ">" +++ nl
                +++ joinAll (map (attributeDeclaration "        ")
                               (attributeNames info))
                +++ "      </xs:extension>" +++ nl
                +++ "    </xs:simpleContent>" +++ nl).
        split; [now left|].
        rewrite typeDefinition_simpleContent by (auto; congruence).
        now rewrite !append_assoc.
    + right. exists EmptyString.
      exists ("    <xs:sequence minOccurs=" +++ dq +++ "0" +++ dq +++ "/>" +++ nl
              +++ joinAll (map (attributeDeclaration "    ")
                             (attributeNames info))).
      split; [now left|].
      rewrite typeDefinition_empty by auto.
      now rewrite !append_assoc.
  - right.
    exists (if hasTextContent info
            then " mixed=" +++ dq +++ "true" +++ dq else EmptyString).
    exists ("    <xs:sequence>" +++ nl
            +++ joinAll (map childReference
                           (JSSet.ofList
                              (match JSMap.get tag (elementOrder st) with
                               | Some order => order
                               | None => children info
                               end ++ children info)))
            +++ "    </xs:sequence>" +++ nl
            +++ joinAll (map (attributeDeclaration "    ")
                           (attributeNames info))).
    split; [destruct (hasTextContent info); auto|].
    rewrite typeDefinition_sequence by congruence.
    unfold typeNameAttribute. now rewrite !append_assoc.
Qed.

Lemma elementDeclaration_shape (st : Store) (tag : string) :
  In tag (JSMap.keys (elementInfo st)) ->
  elementDeclaration st tag
  = "  <xs:element name=" +++ dq +++ tag +++ dq
    +++ " type=" +++ dq +++ "xs:string" +++ dq +++ "/>" +++ nl
  \/ elementDeclaration st tag
     = "  <xs:element name=" +++ dq +++ tag +++ dq
       +++ " type=" +++ dq +++ "tns:" +++ tag +++ "Type" +++ dq +++ "/>" +++ nl.
Proof.
  intros H. apply keys_get in H as [info Hg].
  unfold elementDeclaration, declareElement. rewrite Hg.
  destruct (_ && _ && _); auto.
Qed.

(** * The claims *)

(** C8.  At every point of the traversal, the final one included, the order
    recorded for a tag has no name twice and every name of it is among the
    children of the tag's record; an order exists only for a tag that has a
    record. *)
Theorem childOrder_within_children_at_every_point
  (rootElement : Node) (st : Store) :
  In st (now (analyse rootElement) :: before (analyse rootElement)) ->
  (forall tag info,
      JSMap.get tag (elementInfo st) = Some info ->
      NoDup (orderOf tag st) /\ incl (orderOf tag st) (children info))
  /\ (forall tag order,
         JSMap.get tag (elementOrder st) = Some order ->
         NoDup order
         /\ exists info, JSMap.get tag (elementInfo st) = Some info
                         /\ incl order (children info)).
Proof.
  intros Hst. pose proof (analyse_inv rootElement) as H.
  unfold RunInv in H. rewrite Forall_forall in H.
  destruct (H st Hst) as [H1 H2]. split; [|exact H2].
  intros tag info Hg. unfold orderOf.
  destruct (JSMap.get tag (elementOrder st)) as [o|] eqn:Eo.
  - destruct (H2 _ _ Eo) as [Ho [i [Hi Hincl]]].
    assert (i = info) by congruence. subst i. auto.
  - split; [constructor|intros x []].
Qed.

(** The final store of the list sample is one of the points, and its order
    of [list] obeys the invariant. *)
Lemma childOrder_within_children_witness :
  In (now (analyse listDocument))
     (now (analyse listDocument) :: before (analyse listDocument))
  /\ NoDup (orderOf "list" (now (analyse listDocument)))
  /\ incl (orderOf "list" (now (analyse listDocument))) ["value"].
Proof.
  split; [left; reflexivity|].
  apply (proj1 (childOrder_within_children_at_every_point
                  listDocument (now (analyse listDocument))
                  (or_introl eq_refl))
           "list"
           {| attributeNames := []; children := ["value"];
              hasTextContent := false |}).
  reflexivity.
Defined.

(** C1.  For a tag whose accumulated record has at least one child name, the
    type definition printed for the tag is a sequence with one reference per
    distinct child name: the names of the order recorded for the tag come
    first, the other children after them, no name twice and every child
    present, however often the document has it under elements of the tag;
    every reference has [minOccurs="0"] and [maxOccurs="unbounded"]; the
    opening tag has [mixed="true"] exactly when the record has text; the
    attribute declarations follow the sequence. *)
Theorem children_one_reference_each
  (rootElement : Node) (tag : string) (info : ElementInfo) :
  let st := now (analyse rootElement) in
  JSMap.get tag (elementInfo st) = Some info ->
  children info <> [] ->
  exists references,
    typeDefinition st (tag, info)
    = "  <xs:complexType name=" +++ dq +++ tag +++ "Type" +++ dq
      +++ (if hasTextContent info
           then " mixed=" +++ dq +++ "true" +++ dq else EmptyString)
      +++ ">" +++ nl
      +++ "    <xs:sequence>" +++ nl
      +++ joinAll (map childReference references)
      +++ "    </xs:sequence>" +++ nl
      +++ joinAll (map (attributeDeclaration "    ") (attributeNames info))
      +++ "  </xs:complexType>" +++ nl +++ nl
    /\ NoDup references
    /\ (forall c, In c references <-> In c (children info))
    /\ (forall c, In c references <-> In c (childNamesIn tag rootElement))
    /\ (exists order later,
          JSMap.get tag (elementOrder st) = Some order
          /\ references = order ++ later)
    /\ (forall c,
          childReference c
          = "      <xs:element ref=" +++ dq +++ "tns:" +++ c +++ dq
            +++ " minOccurs=" +++ dq +++ "0" +++ dq
            +++ " maxOccurs=" +++ dq +++ "unbounded" +++ dq +++ "/>" +++ nl)
    /\ exists before after,
        printSchema st = before +++ typeDefinition st (tag, info) +++ after.
Proof.
  intros st Hg Hc.
  assert (Hinv : StoreInv st) by apply RunInv_now, analyse_inv.
  destruct (references_spec st tag info Hinv Hg) as [Hnd [Hin [later Hord]]].
  assert (Hp : exists order, JSMap.get tag (elementOrder st) = Some order).
  { pose proof (analyse_paired rootElement tag) as Hp. fold st in Hp.
    unfold JSMap.has in Hp. rewrite Hg in Hp. specialize (Hp eq_refl).
    destruct (JSMap.get tag (elementOrder st)) as [o|]; [eauto|discriminate]. }
  destruct Hp as [order Ho].
  assert (Hord' : exists order later,
             JSMap.get tag (elementOrder st) = Some order
             /\ JSSet.ofList
                  (match JSMap.get tag (elementOrder st) with
                   | Some order => order
                   | None => children info
                   end ++ children info) = order ++ later).
  { exists order, later. split; [exact Ho|].
    rewrite Hord. unfold orderOf. now rewrite Ho. }
  assert (Hsrc : forall c,
             In c (JSSet.ofList
                     (match JSMap.get tag (elementOrder st) with
                      | Some order => order
                      | None => children info
                      end ++ children info))
             <-> In c (childNamesIn tag rootElement)).
  { intros c. rewrite Hin. now apply analyse_children. }
  eexists.
  split; [|split; [exact Hnd|split; [exact Hin|split; [exact Hsrc|split;
                                                        [exact Hord'|]]]]].
  - rewrite (typeDefinition_sequence st tag info Hc).
    unfold typeNameAttribute. now rewrite !append_assoc.
  - split; [reflexivity|]. now apply typeDefinition_printed.
Qed.

(** The list sample: [list] has the one child [value], met twice. *)
Lemma children_one_reference_each_witness :
  JSMap.get "list" (elementInfo (now (analyse listDocument)))
  = Some {| attributeNames := []; children := ["value"];
            hasTextContent := false |}
  /\ ["value"] <> []
  /\ exists references,
      typeDefinition (now (analyse listDocument))
        ("list", {| attributeNames := []; children := ["value"];
                    hasTextContent := false |})
      = "  <xs:complexType name=" +++ dq +++ "listType" +++ dq +++ ">" +++ nl
        +++ "    <xs:sequence>" +++ nl
        +++ joinAll (map childReference references)
        +++ "    </xs:sequence>" +++ nl
        +++ "  </xs:complexType>" +++ nl +++ nl
      /\ NoDup references
      /\ (forall c, In c references <-> In c ["value"])
      /\ (forall c, In c references <-> In c ["value"; "value"]).
Proof.
  split; [reflexivity|]. split; [discriminate|].
  destruct (children_one_reference_each listDocument "list"
              {| attributeNames := []; children := ["value"];
                 hasTextContent := false |} eq_refl)
    as [references [H1 [H2 [H3 [H4 _]]]]]; [discriminate|].
  exists references. split; [exact H1|]. split; [exact H2|].
  split; [exact H3|exact H4].
Defined.

(** C4.  A tag whose record has text, no attribute and no child is declared
    as a global element of type [xs:string], and the pass over the type
    definitions prints nothing for it: every entry of that tag contributes
    the empty text. *)
Theorem text_only_tag_is_bare_string
  (rootElement : Node) (tag : string) (info : ElementInfo) :
  let st := now (analyse rootElement) in
  JSMap.get tag (elementInfo st) = Some info ->
  hasTextContent info = true ->
  attributeNames info = [] ->
  children info = [] ->
  elementDeclaration st tag
  = "  <xs:element name=" +++ dq +++ tag +++ dq
    +++ " type=" +++ dq +++ "xs:string" +++ dq +++ "/>" +++ nl
  /\ (exists before after,
        printSchema st = before +++ elementDeclaration st tag +++ after)
  /\ (forall info', In (tag, info') (JSMap.entries (elementInfo st)) ->
                    typeDefinition st (tag, info') = EmptyString).
Proof.
  intros st Hg Ht Ha Hc. split; [|split].
  - now apply elementDeclaration_string with info.
  - now apply elementDeclaration_printed with info.
  - intros info' Hin.
    apply In_get in Hin; [|apply analyse_keys_NoDup].
    assert (info' = info) by congruence. subst info'.
    now apply typeDefinition_none.
Qed.

(** The message sample: [message] holds text only. *)
Lemma text_only_tag_is_bare_string_witness :
  JSMap.get "message" (elementInfo (now (analyse messageDocument)))
  = Some {| attributeNames := []; children := []; hasTextContent := true |}
  /\ elementDeclaration (now (analyse messageDocument)) "message"
     = "  <xs:element name=" +++ dq +++ "message" +++ dq
       +++ " type=" +++ dq +++ "xs:string" +++ dq +++ "/>" +++ nl
  /\ printSchema (now (analyse messageDocument))
     = xmlDeclaration +++ schemaStartTag
       +++ "  <!-- Global Element Declarations -->" +++ nl
       +++ "  <xs:element name=" +++ dq +++ "message" +++ dq
       +++ " type=" +++ dq +++ "xs:string" +++ dq +++ "/>" +++ nl
       +++ nl
       +++ "  <!-- Complex Type Definitions -->" +++ nl
       +++ "</xs:schema>" +++ nl.
Proof.
  split; [reflexivity|]. split; [|reflexivity].
  apply (text_only_tag_is_bare_string messageDocument "message"
           {| attributeNames := []; children := []; hasTextContent := true |});
    reflexivity.
Defined.

(** C5.  A tag whose record has text, no child and at least one attribute
    gets a type definition with simple content that extends [xs:string] and
    holds one optional attribute of type [xs:string] per attribute name of
    the record, each name once; the names of the record are the attribute
    names that the document has on the elements of the tag. *)
Theorem text_with_attributes_extends_string
  (rootElement : Node) (tag : string) (info : ElementInfo) :
  let st := now (analyse rootElement) in
  JSMap.get tag (elementInfo st) = Some info ->
  hasTextContent info = true ->
  children info = [] ->
  attributeNames info <> [] ->
  typeDefinition st (tag, info)
  = "  <xs:complexType name=" +++ dq +++ tag +++ "Type" +++ dq +++ ">" +++ nl
    +++ "    <xs:simpleContent>" +++ nl
    +++ "      <xs:extension base=" +++ dq +++ "xs:string" +++ dq +++ ">" +++ nl
    +++ joinAll (map (attributeDeclaration "        ") (attributeNames info))
    +++ "      </xs:extension>" +++ nl
    +++ "    </xs:simpleContent>" +++ nl
    +++ "  </xs:complexType>" +++ nl +++ nl
  /\ NoDup (attributeNames info)
  /\ (forall attrName,
        In attrName (attributeNames info)
        <-> In attrName (attributeNamesIn tag rootElement))
  /\ (forall attrName,
        attributeDeclaration "        " attrName
        = "        <xs:attribute name=" +++ dq +++ attrName +++ dq
          +++ " type=" +++ dq +++ "xs:string" +++ dq
          +++ " use=" +++ dq +++ "optional" +++ dq +++ "/>" +++ nl)
  /\ (exists before after,
        printSchema st = before +++ typeDefinition st (tag, info) +++ after).
Proof.
  intros st Hg Ht Hc Ha. split; [|split; [|split; [|split]]].
  - now apply typeDefinition_simpleContent.
  - assert (Hinv : StoreInv st) by apply RunInv_now, analyse_inv.
    destruct Hinv as [H1 _]. now destruct (H1 _ _ Hg).
  - now apply analyse_attributes.
  - reflexivity.
  - now apply typeDefinition_printed.
Qed.

(** The measurement sample: text and the attribute [unit]. *)
Lemma text_with_attributes_extends_string_witness :
  JSMap.get "measurement" (elementInfo (now (analyse measurementDocument)))
  = Some {| attributeNames := ["unit"]; children := [];
            hasTextContent := true |}
  /\ typeDefinition (now (analyse measurementDocument))
       ("measurement", {| attributeNames := ["unit"]; children := [];
                          hasTextContent := true |})
     = "  <xs:complexType name=" +++ dq +++ "measurementType" +++ dq +++ ">"
       +++ nl
       +++ "    <xs:simpleContent>" +++ nl
       +++ "      <xs:extension base=" +++ dq +++ "xs:string" +++ dq +++ ">"
       +++ nl
       +++ "        <xs:attribute name=" +++ dq +++ "unit" +++ dq
       +++ " type=" +++ dq +++ "xs:string" +++ dq
       +++ " use=" +++ dq +++ "optional" +++ dq +++ "/>" +++ nl
       +++ "      </xs:extension>" +++ nl
       +++ "    </xs:simpleContent>" +++ nl
       +++ "  </xs:complexType>" +++ nl +++ nl.
Proof.
  split; [reflexivity|].
  apply (text_with_attributes_extends_string measurementDocument "measurement"
           {| attributeNames := ["unit"]; children := [];
              hasTextContent := true |});
    [reflexivity|reflexivity|reflexivity|discriminate].
Defined.

(** C6.  A tag whose record has no text and no child is declared with its
    generated type, and its type definition holds the empty sequence with
    [minOccurs="0"], followed by the attribute declarations of the record,
    if it has any. *)
Theorem empty_tag_has_empty_optional_sequence
  (rootElement : Node) (tag : string) (info : ElementInfo) :
  let st := now (analyse rootElement) in
  JSMap.get tag (elementInfo st) = Some info ->
  hasTextContent info = false ->
  children info = [] ->
  typeDefinition st (tag, info)
  = "  <xs:complexType name=" +++ dq +++ tag +++ "Type" +++ dq +++ ">" +++ nl
    +++ "    <xs:sequence minOccurs=" +++ dq +++ "0" +++ dq +++ "/>" +++ nl
    +++ joinAll (map (attributeDeclaration "    ") (attributeNames info))
    +++ "  </xs:complexType>" +++ nl +++ nl
  /\ elementDeclaration st tag
     = "  <xs:element name=" +++ dq +++ tag +++ dq
       +++ " type=" +++ dq +++ "tns:" +++ tag +++ "Type" +++ dq +++ "/>" +++ nl
  /\ (exists before after,
        printSchema st = before +++ typeDefinition st (tag, info) +++ after)
  /\ (exists before after,
        printSchema st = before +++ elementDeclaration st tag +++ after).
Proof.
  intros st Hg Ht Hc. split; [|split; [|split]].
  - now apply typeDefinition_empty.
  - apply elementDeclaration_generated with info; auto.
  - now apply typeDefinition_printed.
  - now apply elementDeclaration_printed with info.
Qed.

(** The config sample: no content, the attribute [active]. *)
Lemma empty_tag_has_empty_optional_sequence_witness :
  JSMap.get "config" (elementInfo (now (analyse configDocument)))
  = Some {| attributeNames := ["active"]; children := [];
            hasTextContent := false |}
  /\ typeDefinition (now (analyse configDocument))
       ("config", {| attributeNames := ["active"]; children := [];
                     hasTextContent := false |})
     = "  <xs:complexType name=" +++ dq +++ "configType" +++ dq +++ ">" +++ nl
       +++ "    <xs:sequence minOccurs=" +++ dq +++ "0" +++ dq +++ "/>" +++ nl
       +++ "    <xs:attribute name=" +++ dq +++ "active" +++ dq
       +++ " type=" +++ dq +++ "xs:string" +++ dq
       +++ " use=" +++ dq +++ "optional" +++ dq +++ "/>" +++ nl
       +++ "  </xs:complexType>" +++ nl +++ nl.
Proof.
  split; [reflexivity|].
  apply (empty_tag_has_empty_optional_sequence configDocument "config"
           {| attributeNames := ["active"]; children := [];
              hasTextContent := false |});
    reflexivity.
Defined.

(** C2, as stated, does not hold: the parser may report an error whose text
    is a single line, and the message is then the fixed text
    [Invalid XML: Parsing failed.], which has no part of the parser's
    text. *)
Lemma parse_error_message_may_lack_parser_text :
  ~ (forall parser xmlString console e,
        querySelector_parsererror
          (parseFromString parser xmlString "application/xml") = Some e ->
        exists message,
          fst (generateXsd parser xmlString console) = Throw message
          /\ messageHasParserDetail e message).
Proof.
  intros H.
  destruct (H sampleParser "<a>" [] oneLineError eq_refl)
    as [message [Hm [line [Hin [_ Hinc]]]]].
  cbv in Hm. injection Hm as <-.
  destruct Hin as [<-|[]]. vm_compute in Hinc. discriminate.
Qed.

(** C2, amended.  On a parse error the call throws [Invalid XML: ] followed
    by the second line of the parser's text, when there is a second line
    and it is not empty, and the message then includes that line; otherwise
    it throws [Invalid XML: Parsing failed.]. *)
Theorem parse_error_message_second_line
  (parser : DOMParser) (xmlString : string) (console : Console)
  (e : ParserError) :
  querySelector_parsererror
    (parseFromString parser xmlString "application/xml") = Some e ->
  exists message,
    fst (generateXsd parser xmlString console) = Throw message
    /\ match nth_error (splitLines (textContent e)) 1 with
       | Some (String c detail) =>
           message = "Invalid XML: " +++ String c detail
           /\ includes (String c detail) message = true
       | _ => message = "Invalid XML: Parsing failed."
       end.
Proof.
  intros He. unfold generateXsd. rewrite He. cbn [fst].
  exists (parseErrorMessage e). split; [reflexivity|].
  unfold parseErrorMessage, orElse.
  destruct (nth_error (splitLines (textContent e)) 1) as [[|c detail]|];
    cbn [truthy]; try reflexivity.
  split; [reflexivity|].
  rewrite <- (append_nil_r (String c detail)) at 2.
  apply includes_append.
Qed.

(** The input with the two-line error: the message has the second line. *)
Lemma parse_error_message_second_line_witness :
  querySelector_parsererror
    (parseFromString sampleParser "<a></b>" "application/xml")
  = Some twoLineError
  /\ exists message,
      fst (generateXsd sampleParser "<a></b>" []) = Throw message
      /\ message = "Invalid XML: Details here"
      /\ includes "Details here" message = true.
Proof.
  split; [reflexivity|].
  destruct (parse_error_message_second_line
              sampleParser "<a></b>" [] twoLineError eq_refl)
    as [message [H1 H2]].
  exists message. split; [exact H1|exact H2].
Defined.

(** C3, as stated, does not hold: the message of the missing root element
    is not distinct from every message of a parse error.  With the parser
    of the test suite, the empty input throws
    [Invalid XML: No root element found.], and so does the input whose
    marked parser text has [No root element found.] as its second line. *)
Lemma no_root_message_can_be_a_parse_error_message :
  ~ (forall parser xmlString console,
        querySelector_parsererror
          (parseFromString parser xmlString "application/xml") = None ->
        documentElement
          (parseFromString parser xmlString "application/xml") = None ->
        exists message,
          generateXsd parser xmlString console = (Throw message, console)
          /\ forall xmlString' console' e,
               querySelector_parsererror
                 (parseFromString parser xmlString' "application/xml")
               = Some e ->
               fst (generateXsd parser xmlString' console') <> Throw message).
Proof.
  intros H.
  destruct (H (mockParser (fun _ => newMockDocument)) EmptyString []
              eq_refl eq_refl) as [message [Hm Hd]].
  vm_compute in Hm. injection Hm as <-.
  apply (Hd ("<parsererror>x" +++ nl +++ "No root element found.</parsererror>")
            []
            {| textContent := "x" +++ nl +++ "No root element found." |}).
  - reflexivity.
  - reflexivity.
Qed.

(** C3, amended.  When the parser reports no error and the document has no
    root element, the call throws [Invalid XML: No root element found.] and
    logs nothing.  That message is not the fixed message of a parse error;
    it is the message of a parse error exactly when the second line of the
    parser's text is itself [No root element found.]; and a parse error
    always leaves a trace on the console, so that the two outcomes never
    are the same. *)
Theorem no_root_element_message_and_silence
  (parser : DOMParser) (xmlString : string) (console : Console) :
  querySelector_parsererror
    (parseFromString parser xmlString "application/xml") = None ->
  documentElement (parseFromString parser xmlString "application/xml") = None ->
  generateXsd parser xmlString console
  = (Throw "Invalid XML: No root element found.", console)
  /\ "Invalid XML: No root element found." <> "Invalid XML: Parsing failed."
  /\ (forall e,
        parseErrorMessage e = "Invalid XML: No root element found."
        <-> nth_error (splitLines (textContent e)) 1
            = Some "No root element found.")
  /\ (forall parser' xmlString' e,
        querySelector_parsererror
          (parseFromString parser' xmlString' "application/xml") = Some e ->
        generateXsd parser' xmlString' console
        <> generateXsd parser xmlString console).
Proof.
  intros He Hr. split; [|split; [|split]].
  - unfold generateXsd. now rewrite He, Hr.
  - discriminate.
  - intros e. unfold parseErrorMessage, orElse. split.
    + destruct (nth_error (splitLines (textContent e)) 1) as [[|c detail]|];
        cbn [truthy]; try discriminate.
      now intros [= -> ->].
    + now intros ->.
  - intros parser' xmlString' e He'. unfold generateXsd.
    rewrite He, Hr, He'. intros [= _ E].
    apply (f_equal (@List.length _)) in E. rewrite length_app in E.
    simpl in E. lia.
Qed.

(** The empty string: no error, no root element. *)
Lemma no_root_element_witness :
  querySelector_parsererror
    (parseFromString sampleParser EmptyString "application/xml") = None
  /\ documentElement
       (parseFromString sampleParser EmptyString "application/xml") = None
  /\ generateXsd sampleParser EmptyString []
     = (Throw "Invalid XML: No root element found.", []).
Proof.
  split; [reflexivity|]. split; [reflexivity|].
  apply (no_root_element_message_and_silence sampleParser EmptyString []);
    reflexivity.
Defined.

(** C10.  When the document has a parser error the call throws the message
    of the parse error and logs the error, whatever [documentElement] is:
    two parsers that report the same error give the same result, also when
    one of them has no root element and the other has one. *)
Theorem parse_error_before_root_check
  (parser parser' : DOMParser) (xmlString : string) (console : Console)
  (e : ParserError) :
  querySelector_parsererror
    (parseFromString parser xmlString "application/xml") = Some e ->
  querySelector_parsererror
    (parseFromString parser' xmlString "application/xml") = Some e ->
  generateXsd parser xmlString console
  = (Throw (parseErrorMessage e),
     console ++ [{| label := "XML Parsing Error:"; logged := e |}])
  /\ generateXsd parser' xmlString console
     = generateXsd parser xmlString console.
Proof.
  intros He He'. unfold generateXsd. now rewrite He, He'.
Qed.

(** An error without a root element, and the same error with one. *)
Lemma parse_error_before_root_check_witness :
  documentElement (parseFromString sampleParser "<a>" "application/xml") = None
  /\ generateXsd sampleParser "<a>" []
     = (Throw "Invalid XML: Parsing failed.",
        [{| label := "XML Parsing Error:"; logged := oneLineError |}])
  /\ generateXsd
       (tableParser [("<a>", failed oneLineError (Some messageDocument))])
       "<a>" []
     = generateXsd sampleParser "<a>" [].
Proof.
  split; [reflexivity|].
  apply (parse_error_before_root_check
           sampleParser
           (tableParser [("<a>", failed oneLineError (Some messageDocument))])
           "<a>" [] oneLineError);
    reflexivity.
Defined.

(** * Further properties of the traversal *)

(** ** The text flag *)

Lemma flagOf_ensure (n tag : string) (st : Store) :
  JSMap.has n (elementInfo st) = false ->
  flagOf (setOrder n (setInfo n st)) tag = flagOf st tag.
Proof.
  intros Hn. unfold flagOf. simpl. rewrite get_set.
  destruct (String.eqb_spec tag n) as [->|]; [|reflexivity].
  unfold JSMap.has in Hn. now destruct (JSMap.get n (elementInfo st)).
Qed.

Lemma flagOf_update (f : ElementInfo -> ElementInfo) (n tag : string) (st : Store) :
  (forall i, hasTextContent (f i) = hasTextContent i) ->
  flagOf {| elementInfo := JSMap.update n f (elementInfo st);
            elementOrder := elementOrder st |} tag
  = flagOf st tag.
Proof.
  intros Hf. unfold flagOf. simpl. rewrite get_update.
  destruct (String.eqb_spec tag n) as [->|]; [|reflexivity].
  destruct (JSMap.get n (elementInfo st)); simpl; auto.
Qed.

Lemma flagOf_addAttribute (n a tag : string) (st : Store) :
  flagOf (addAttribute n a st) tag = flagOf st tag.
Proof. now apply flagOf_update. Qed.

Lemma flagOf_addChild (n c tag : string) (st : Store) :
  flagOf (addChild n c st) tag = flagOf st tag.
Proof. now apply flagOf_update. Qed.

Lemma flagOf_setHasTextContent (n tag : string) (st : Store) :
  JSMap.has n (elementInfo st) = true ->
  flagOf (setHasTextContent n st) tag = String.eqb n tag || flagOf st tag.
Proof.
  intros Hn. apply has_true_get in Hn as [i Hi].
  unfold flagOf. simpl. rewrite get_update, (String.eqb_sym n tag).
  destruct (String.eqb_spec tag n) as [->|]; [|reflexivity].
  now rewrite Hi.
Qed.

Lemma hasDirectText_cons (c : Node) (cs : list Node) :
  hasDirectText (c :: cs) = hasDirectText [c] || hasDirectText cs.
Proof. unfold hasDirectText. simpl. now rewrite orb_false_r. Qed.

Lemma visitChild_flag (processChild : Node -> Run -> Run)
  (n tag : string) (s : JSSet.t) (r : Run) (c : Node) :
  JSMap.has n (elementInfo (now r)) = true ->
  (forall m a cs' r', c = Element m a cs' ->
      flagOf (now (processChild c r')) tag
      = flagOf (now r') tag || textIn tag c) ->
  flagOf (now (snd (visitChild processChild n (s, r) c))) tag
  = flagOf (now r) tag || (String.eqb n tag && hasDirectText [c])
    || textIn tag c.
Proof.
  intros Hn Hp. unfold visitChild.
  destruct c as [childName attrs cs | v | v | t v | v];
    try (cbn [snd hasDirectText existsb textIn];
         now rewrite andb_false_r, !orb_false_r).
  - assert (Hpush : forall st, flagOf (pushOrder n childName st) tag
                               = flagOf st tag) by reflexivity.
    change (hasDirectText [Element childName attrs cs]) with false.
    rewrite andb_false_r, orb_false_r.
    destruct (_ || _); [destruct (_ && _); [|destruct (negb _)]|];
      cbn [snd]; rewrite (Hp childName attrs cs _ eq_refl); cbn [now mutate];
      rewrite ?Hpush, flagOf_addChild; reflexivity.
  - cbn [hasDirectText existsb textIn]. rewrite !orb_false_r.
    destruct (negb (trim v =? EmptyString)%string); cbn [snd now mutate].
    + rewrite flagOf_setHasTextContent by assumption.
      rewrite andb_true_r. apply orb_comm.
    + now rewrite andb_false_r, orb_false_r.
Qed.

Lemma forEach_flag (n tag : string) (cs : list Node) :
  Forall (fun c => forall p r' m a cs', c = Element m a cs' ->
              flagOf (now (processNode c p r')) tag
              = flagOf (now r') tag || textIn tag c) cs ->
  forall s r,
    JSMap.has n (elementInfo (now r)) = true ->
    flagOf (now (snd (fold_left
                        (visitChild (fun c => processNode c (Some n)) n)
                        cs (s, r)))) tag
    = flagOf (now r) tag || (String.eqb n tag && hasDirectText cs)
      || existsb (textIn tag) cs.
Proof.
  induction 1 as [|c cs Hc _ IH]; intros s r Hn; cbn [fold_left existsb].
  - cbn. now rewrite andb_false_r, !orb_false_r.
  - pose proof (visitChild_flag (fun c => processNode c (Some n))
                  n tag s r c Hn
                  (fun m a cs' r' E => Hc (Some n) r' m a cs' E)) as H.
    pose proof (visitChild_keeps_record n n s r c Hn) as Hn'.
    destruct (visitChild (fun c => processNode c (Some n)) n (s, r) c)
      as [s' r'].
    cbn [snd] in H, Hn'.
    rewrite (IH s' r' Hn'), H, (hasDirectText_cons c cs). clear.
    destruct (flagOf (now r) tag), (String.eqb n tag), (hasDirectText [c]),
      (hasDirectText cs), (textIn tag c), (existsb (textIn tag) cs);
      reflexivity.
Qed.

Lemma attributes_fold_flag (n tag : string) (attrs : list Attr) (r : Run) :
  flagOf (now (fold_left (fun r x => mutate (addAttribute n (name x)) r)
                         attrs r)) tag
  = flagOf (now r) tag.
Proof.
  revert r; induction attrs as [|x attrs IH]; intros r; simpl; [reflexivity|].
  rewrite IH. cbn [now mutate]. apply flagOf_addAttribute.
Qed.

Lemma attributes_fold_has (n : string) (attrs : list Attr) (r : Run) :
  JSMap.has n (elementInfo (now r)) = true ->
  JSMap.has n
    (elementInfo
       (now (fold_left (fun r x => mutate (addAttribute n (name x)) r)
                       attrs r))) = true.
Proof.
  intros Hn. now destruct (attributes_fold n n n attrs r Hn) as [H _].
Qed.

Lemma processNode_flag (tag : string) (node : Node) :
  forall parentName r m a cs, node = Element m a cs ->
    flagOf (now (processNode node parentName r)) tag
    = flagOf (now r) tag || textIn tag node.
Proof.
  induction node as [n attrs cs IH | v | v | t v | v] using Node_ind;
    intros parentName r m a cs' E; try discriminate.
  cbn [processNode textIn].
  rewrite (forEach_flag n tag cs IH)
    by apply attributes_fold_has, ensureRecord_has.
  rewrite attributes_fold_flag.
  assert (H : flagOf (now (if JSMap.has n (elementInfo (now r)) then r
                           else mutate (setOrder n) (mutate (setInfo n) r))) tag
              = flagOf (now r) tag).
  { destruct (JSMap.has n (elementInfo (now r))) eqn:Eh; [reflexivity|].
    cbn [now mutate]. now apply flagOf_ensure. }
  rewrite H. now rewrite orb_assoc.
Qed.

Lemma analyse_text_flag
  (rootElement : Node) (tag : string) (info : ElementInfo) :
  JSMap.get tag (elementInfo (now (analyse rootElement))) = Some info ->
  hasTextContent info = textIn tag rootElement.
Proof.
  intros Hg.
  destruct rootElement as [tagName attrs childNodes | v | v | t v | v];
    try discriminate.
  pose proof (processNode_flag tag (Element tagName attrs childNodes) None
                start tagName attrs childNodes eq_refl) as H.
  fold (analyse (Element tagName attrs childNodes)) in H.
  unfold flagOf in H at 1. rewrite Hg in H. exact H.
Qed.

(** X1.  The text flag of a record is set exactly when the document has an
    element of that tag with a text node that is not blank among its own
    child nodes; text further down, blank text and CDATA sections do not
    set it. *)
Theorem record_has_text_iff_direct_text
  (rootElement : Node) (tag : string) (info : ElementInfo) :
  JSMap.get tag (elementInfo (now (analyse rootElement))) = Some info ->
  hasTextContent info = textIn tag rootElement.
Proof.
  intros Hg.
  destruct rootElement as [tagName attrs childNodes | v | v | t v | v];
    try discriminate.
  pose proof (processNode_flag tag (Element tagName attrs childNodes) None
                start tagName attrs childNodes eq_refl) as H.
  fold (analyse (Element tagName attrs childNodes)) in H.
  unfold flagOf in H at 1. rewrite Hg in H. exact H.
Qed.

(** The description sample: text around a child, and text in the child. *)
Lemma record_has_text_witness :
  JSMap.get "description" (elementInfo (now (analyse descriptionDocument)))
  = Some {| attributeNames := []; children := ["highlight"];
            hasTextContent := true |}
  /\ true = textIn "description" descriptionDocument.
Proof.
  split; [reflexivity|].
  apply (record_has_text_iff_direct_text descriptionDocument "description"
           {| attributeNames := []; children := ["highlight"];
              hasTextContent := true |}).
  reflexivity.
Defined.

(** ** The sets and the order, member by member *)

Lemma addAll_if (b : bool) (l : list string) (s : JSSet.t) :
  JSSet.addAll (if b then l else []) s = if b then JSSet.addAll l s else s.
Proof. now destruct b. Qed.

Lemma attributes_addAttribute_eq (n x tag : string) (st : Store) :
  JSMap.has n (elementInfo st) = true ->
  fieldOf attributeNames (addAttribute n x st) tag
  = if String.eqb n tag
    then JSSet.add x (fieldOf attributeNames st tag)
    else fieldOf attributeNames st tag.
Proof.
  intros Hn. apply has_true_get in Hn as [i Hi].
  unfold fieldOf. simpl. rewrite get_update, (String.eqb_sym n tag).
  destruct (String.eqb_spec tag n) as [->|]; [|reflexivity].
  now rewrite Hi.
Qed.

Lemma children_addChild_eq (n c tag : string) (st : Store) :
  JSMap.has n (elementInfo st) = true ->
  fieldOf children (addChild n c st) tag
  = if String.eqb n tag
    then JSSet.add c (fieldOf children st tag)
    else fieldOf children st tag.
Proof.
  intros Hn. apply has_true_get in Hn as [i Hi].
  unfold fieldOf. simpl. rewrite get_update, (String.eqb_sym n tag).
  destruct (String.eqb_spec tag n) as [->|]; [|reflexivity].
  now rewrite Hi.
Qed.

Lemma attributes_fold_eq (n tag : string) (attrs : list Attr) (r : Run) :
  JSMap.has n (elementInfo (now r)) = true ->
  fieldOf attributeNames
    (now (fold_left (fun r x => mutate (addAttribute n (name x)) r) attrs r))
    tag
  = JSSet.addAll (if String.eqb n tag then map name attrs else [])
                 (fieldOf attributeNames (now r) tag).
Proof.
  revert r; induction attrs as [|x attrs IH]; intros r Hn; cbn [fold_left map].
  - now destruct (String.eqb n tag).
  - rewrite IH by (simpl; now rewrite has_update).
    cbn [now mutate]. rewrite attributes_addAttribute_eq by assumption.
    now destruct (String.eqb n tag).
Qed.

Lemma visitChild_attributes_eq (processChild : Node -> Run -> Run)
  (n tag : string) (s : JSSet.t) (r : Run) (c : Node) :
  (forall r', fieldOf attributeNames (now (processChild c r')) tag
              = JSSet.addAll (attributeNamesIn tag c)
                             (fieldOf attributeNames (now r') tag)) ->
  fieldOf attributeNames (now (snd (visitChild processChild n (s, r) c))) tag
  = JSSet.addAll (attributeNamesIn tag c) (fieldOf attributeNames (now r) tag).
Proof.
  intros Hp. unfold visitChild.
  destruct c as [childName attrs cs | v | v | t v | v]; try reflexivity.
  - assert (Hpush : forall st, fieldOf attributeNames (pushOrder n childName st) tag
                               = fieldOf attributeNames st tag) by reflexivity.
    destruct (_ || _); [destruct (_ && _); [|destruct (negb _)]|];
      cbn [snd]; rewrite Hp; cbn [now mutate];
      rewrite ?Hpush, attributes_addChild; reflexivity.
  - destruct (negb _); [|reflexivity]. cbn [snd now mutate].
    now rewrite attributes_setHasTextContent.
Qed.

Lemma forEach_attributes_eq (processChild : Node -> Run -> Run)
  (n tag : string) (cs : list Node) :
  Forall (fun c => forall r',
              fieldOf attributeNames (now (processChild c r')) tag
              = JSSet.addAll (attributeNamesIn tag c)
                             (fieldOf attributeNames (now r') tag)) cs ->
  forall s r,
    fieldOf attributeNames
      (now (snd (fold_left (visitChild processChild n) cs (s, r)))) tag
    = JSSet.addAll (flat_map (attributeNamesIn tag) cs)
                   (fieldOf attributeNames (now r) tag).
Proof.
  induction 1 as [|c cs Hc _ IH]; intros s r; cbn [fold_left flat_map];
    [reflexivity|].
  pose proof (visitChild_attributes_eq processChild n tag s r c Hc) as H.
  destruct (visitChild processChild n (s, r) c) as [s' r'].
  now rewrite IH, addAll_app, <- H.
Qed.

Lemma processNode_attributes_eq (tag : string) (node : Node) :
  forall parentName r,
    fieldOf attributeNames (now (processNode node parentName r)) tag
    = JSSet.addAll (attributeNamesIn tag node)
                   (fieldOf attributeNames (now r) tag).
Proof.
  induction node as [n attrs cs IH | v | v | t v | v] using Node_ind;
    intros parentName r; try reflexivity.
  - cbn [processNode attributeNamesIn].
    rewrite forEach_attributes_eq
      by (eapply Forall_impl; [|exact IH]; intros c Hc r'; apply Hc).
    rewrite attributes_fold_eq by apply ensureRecord_has.
    now rewrite ensureRecord_field, addAll_app by reflexivity.
  - simpl. destruct parentName as [p|]; [|reflexivity].
    destruct (_ && _ && _); [|reflexivity]. cbn [now mutate].
    apply attributes_setHasTextContent.
Qed.

Lemma visitChild_children_eq (processChild : Node -> Run -> Run)
  (n tag : string) (s : JSSet.t) (r : Run) (c : Node) :
  JSMap.has n (elementInfo (now r)) = true ->
  (forall r', fieldOf children (now (processChild c r')) tag
              = JSSet.addAll (childSequence tag c)
                             (fieldOf children (now r') tag)) ->
  fieldOf children (now (snd (visitChild processChild n (s, r) c))) tag
  = JSSet.addAll ((if String.eqb n tag then childTagNames [c] else [])
                  ++ childSequence tag c)
                 (fieldOf children (now r) tag).
Proof.
  intros Hn Hp. unfold visitChild.
  destruct c as [childName attrs cs | v | v | t v | v];
    try (cbn [snd]; now destruct (String.eqb n tag)).
  - assert (Hpush : forall st, fieldOf children (pushOrder n childName st) tag
                               = fieldOf children st tag) by reflexivity.
    pose proof (children_addChild_eq n childName tag (now r) Hn) as Hadd.
    change (childTagNames [Element childName attrs cs]) with [childName].
    rewrite addAll_app.
    destruct (_ || _); [destruct (_ && _); [|destruct (negb _)]|];
      cbn [snd]; rewrite Hp; cbn [now mutate];
      rewrite ?Hpush, Hadd; now destruct (String.eqb n tag).
  - destruct (negb _); cbn [snd now mutate];
      rewrite ?children_setHasTextContent; now destruct (String.eqb n tag).
Qed.

Lemma forEach_children_eq (n tag : string) (cs : list Node) :
  Forall (fun c => forall p r',
              fieldOf children (now (processNode c p r')) tag
              = JSSet.addAll (childSequence tag c)
                             (fieldOf children (now r') tag)) cs ->
  forall s r,
    JSMap.has n (elementInfo (now r)) = true ->
    fieldOf children
      (now (snd (fold_left (visitChild (fun c => processNode c (Some n)) n)
                           cs (s, r)))) tag
    = JSSet.addAll
        (flat_map (fun c => (if String.eqb n tag then childTagNames [c] else [])
                            ++ childSequence tag c) cs)
        (fieldOf children (now r) tag).
Proof.
  induction 1 as [|c cs Hc _ IH]; intros s r Hn; cbn [fold_left flat_map];
    [reflexivity|].
  pose proof (visitChild_children_eq (fun c => processNode c (Some n))
                n tag s r c Hn (fun r' => Hc (Some n) r')) as H.
  pose proof (visitChild_keeps_record n n s r c Hn) as Hn'.
  destruct (visitChild (fun c => processNode c (Some n)) n (s, r) c)
    as [s' r'].
  cbn [snd] in H, Hn'.
  now rewrite (IH s' r' Hn'), H, <- addAll_app.
Qed.

Lemma processNode_children_eq (tag : string) (node : Node) :
  forall parentName r,
    fieldOf children (now (processNode node parentName r)) tag
    = JSSet.addAll (childSequence tag node) (fieldOf children (now r) tag).
Proof.
  induction node as [n attrs cs IH | v | v | t v | v] using Node_ind;
    intros parentName r; try reflexivity.
  - cbn [processNode childSequence].
    destruct (attributes_fold n tag n attrs _ (ensureRecord_has n r))
      as [Hn [H _]].
    cbv zeta in Hn, H.
    rewrite (forEach_children_eq n tag cs IH _ _ Hn).
    now rewrite H, ensureRecord_field by reflexivity.
  - simpl. destruct parentName as [p|]; [|reflexivity].
    destruct (_ && _ && _); [|reflexivity]. cbn [now mutate].
    apply children_setHasTextContent.
Qed.

Ltac matched_steps :=
  unfold Matched; simpl; intros;
  rewrite ?has_set, ?has_update;
  try match goal with H : forall n, _ = _ |- _ => rewrite H end;
  reflexivity.

Lemma processNode_matched (node : Node) parentName (r : Run) :
  Matched (now r) -> Matched (now (processNode node parentName r)).
Proof. apply (processNode_preserves Matched); matched_steps. Qed.

Lemma orderOf_pushOrder (n c tag : string) (st : Store) :
  JSMap.has n (elementOrder st) = true ->
  orderOf tag (pushOrder n c st)
  = if String.eqb n tag then orderOf tag st ++ [c] else orderOf tag st.
Proof.
  intros Hn. apply has_true_get in Hn as [o Ho].
  unfold orderOf. simpl. rewrite get_update, (String.eqb_sym n tag).
  destruct (String.eqb_spec tag n) as [->|]; [|reflexivity].
  now rewrite Ho.
Qed.

Lemma orderOf_ensure (n tag : string) (r : Run) :
  Matched (now r) ->
  orderOf tag (now (if JSMap.has n (elementInfo (now r)) then r
                    else mutate (setOrder n) (mutate (setInfo n) r)))
  = orderOf tag (now r).
Proof.
  intros Hm. destruct (JSMap.has n (elementInfo (now r))) eqn:E; [reflexivity|].
  unfold orderOf. simpl. rewrite get_set.
  destruct (String.eqb_spec tag n) as [->|]; [|reflexivity].
  rewrite <- Hm in E. unfold JSMap.has in E.
  now destruct (JSMap.get n (elementOrder (now r))).
Qed.

Lemma ensureRecord_matched (n : string) (r : Run) :
  Matched (now r) ->
  Matched (now (if JSMap.has n (elementInfo (now r)) then r
                else mutate (setOrder n) (mutate (setInfo n) r))).
Proof.
  intros Hm. destruct (JSMap.has n (elementInfo (now r))); [assumption|].
  revert Hm. matched_steps.
Qed.

Lemma attributes_fold_order (n tag : string) (attrs : list Attr) (r : Run) :
  Matched (now r) ->
  let r' := fold_left (fun r x => mutate (addAttribute n (name x)) r) attrs r in
  Matched (now r') /\ orderOf tag (now r') = orderOf tag (now r).
Proof.
  revert r; induction attrs as [|x attrs IH]; intros r Hm; cbn zeta.
  - now split.
  - cbn [fold_left].
    assert (Hm' : Matched (now (mutate (addAttribute n (name x)) r)))
      by (revert Hm; matched_steps).
    destruct (IH _ Hm') as [H1 H2]. split; [exact H1|]. now rewrite H2.
Qed.

(** What the conditionals around [order.push] come to: the name is pushed
    when the order does not have it, as a set would add it. *)
Lemma visitChild_order_eq (processChild : Node -> Run -> Run)
  (n tag : string) (s : JSSet.t) (r : Run) (c : Node) :
  Matched (now r) ->
  JSMap.has n (elementInfo (now r)) = true ->
  (forall r', Matched (now r') ->
              orderOf tag (now (processChild c r'))
              = JSSet.addAll (childSequence tag c) (orderOf tag (now r'))) ->
  orderOf tag (now (snd (visitChild processChild n (s, r) c)))
  = JSSet.addAll ((if String.eqb n tag then childTagNames [c] else [])
                  ++ childSequence tag c)
                 (orderOf tag (now r)).
Proof.
  intros Hm Hn Hp. unfold visitChild.
  destruct c as [childName attrs cs | v | v | t v | v];
    try (cbn [snd]; now destruct (String.eqb n tag)).
  - change (childTagNames [Element childName attrs cs]) with [childName].
    rewrite addAll_app.
    remember (mutate (addChild n childName) r) as r1 eqn:Er1.
    assert (Hm1 : Matched (now r1)) by (subst r1; revert Hm; matched_steps).
    assert (Ho : forall t, orderOf t (now r1) = orderOf t (now r))
      by (now subst r1).
    assert (Hn1 : JSMap.has n (elementOrder (now r1)) = true).
    { rewrite Hm1. subst r1. simpl. now rewrite has_update. }
    assert (Hm2 : Matched (now (mutate (pushOrder n childName) r1)))
      by (revert Hm1; matched_steps).
    pose proof (orderOf_pushOrder n childName tag (now r1) Hn1) as Hpush.
    clear Er1.
    assert (Hyes : orderOf tag (now (mutate (pushOrder n childName) r1))
                   = (if String.eqb n tag
                      then orderOf tag (now r) ++ [childName]
                      else orderOf tag (now r)))
      by (cbn [now mutate]; now rewrite Hpush, Ho).
    destruct (Nat.eqb (List.length (orderOf n (now r1))) 0) eqn:El.
    + assert (Hc : arrayIncludes childName (orderOf n (now r1)) = false).
      { destruct (orderOf n (now r1)); [reflexivity|discriminate]. }
      assert (Hres : orderOf tag (now (mutate (pushOrder n childName) r1))
                     = JSSet.addAll (if String.eqb n tag then [childName] else [])
                                    (orderOf tag (now r))).
      { rewrite Hyes. destruct (String.eqb_spec n tag) as [->|]; [|reflexivity].
        rewrite Ho in Hc. cbn. unfold JSSet.add, JSSet.has.
        unfold arrayIncludes in Hc. now rewrite Hc. }
      rewrite Hc. destruct (JSSet.has childName s); cbn [orb andb negb snd];
        rewrite Hp by assumption; now rewrite Hres.
    + rewrite andb_false_r. cbn [orb].
      destruct (arrayIncludes childName (orderOf n (now r1))) eqn:Hc;
        cbn [negb snd]; rewrite Hp by assumption.
      * rewrite Ho. destruct (String.eqb_spec n tag) as [->|]; [|reflexivity].
        rewrite Ho in Hc. cbn. unfold JSSet.add, JSSet.has.
        unfold arrayIncludes in Hc. now rewrite Hc.
      * rewrite Hyes. destruct (String.eqb_spec n tag) as [->|]; [|reflexivity].
        rewrite Ho in Hc. cbn. unfold JSSet.add, JSSet.has.
        unfold arrayIncludes in Hc. now rewrite Hc.
  - destruct (negb _); cbn [snd]; now destruct (String.eqb n tag).
Qed.

Lemma visitChild_matched (n : string) (s : JSSet.t) (r : Run) (c : Node) :
  Matched (now r) ->
  Matched (now (snd (visitChild (fun c => processNode c (Some n)) n (s, r) c))).
Proof.
  apply (visitChild_preserves Matched);
    first [intros r'; apply processNode_matched | matched_steps].
Qed.

Lemma forEach_order_eq (n tag : string) (cs : list Node) :
  Forall (fun c => forall p r', Matched (now r') ->
              orderOf tag (now (processNode c p r'))
              = JSSet.addAll (childSequence tag c) (orderOf tag (now r'))) cs ->
  forall s r,
    Matched (now r) ->
    JSMap.has n (elementInfo (now r)) = true ->
    orderOf tag
      (now (snd (fold_left (visitChild (fun c => processNode c (Some n)) n)
                           cs (s, r))))
    = JSSet.addAll
        (flat_map (fun c => (if String.eqb n tag then childTagNames [c] else [])
                            ++ childSequence tag c) cs)
        (orderOf tag (now r)).
Proof.
  induction 1 as [|c cs Hc _ IH]; intros s r Hm Hn; cbn [fold_left flat_map];
    [reflexivity|].
  pose proof (visitChild_order_eq (fun c => processNode c (Some n))
                n tag s r c Hm Hn (fun r' => Hc (Some n) r')) as H.
  pose proof (visitChild_keeps_record n n s r c Hn) as Hn'.
  pose proof (visitChild_matched n s r c Hm) as Hm'.
  destruct (visitChild (fun c => processNode c (Some n)) n (s, r) c)
    as [s' r'].
  cbn [snd] in H, Hn', Hm'.
  now rewrite (IH s' r' Hm' Hn'), H, <- addAll_app.
Qed.

Lemma processNode_order_eq (tag : string) (node : Node) :
  forall parentName r,
    Matched (now r) ->
    orderOf tag (now (processNode node parentName r))
    = JSSet.addAll (childSequence tag node) (orderOf tag (now r)).
Proof.
  induction node as [n attrs cs IH | v | v | t v | v] using Node_ind;
    intros parentName r Hm; try reflexivity.
  - cbn [processNode childSequence].
    destruct (attributes_fold_order n tag attrs _ (ensureRecord_matched n r Hm))
      as [Hm' Ho].
    cbv zeta in Hm', Ho.
    rewrite (forEach_order_eq n tag cs IH _ _ Hm')
      by apply attributes_fold_has, ensureRecord_has.
    now rewrite Ho, orderOf_ensure.
  - simpl. destruct parentName as [p|]; [|reflexivity].
    now destruct (_ && _ && _).
Qed.

Lemma start_matched : Matched (now start).
Proof. intros n. reflexivity. Qed.

Lemma filter_absent_incl (l m : list string) :
  incl l m -> filter (fun x => negb (JSSet.has x m)) l = [].
Proof.
  induction l as [|x l IH]; intros H; simpl; [reflexivity|].
  assert (E : JSSet.has x m = true) by (apply has_In, H; now left).
  rewrite E. simpl. apply IH. intros y Hy. apply H. now right.
Qed.

Lemma ofList_twice (l : list string) : NoDup l -> JSSet.ofList (l ++ l) = l.
Proof.
  intros H. rewrite ofList_order_children by assumption.
  rewrite filter_absent_incl by apply incl_refl. apply app_nil_r.
Qed.

Lemma analyse_attributes_eq
  (rootElement : Node) (tag : string) (info : ElementInfo) :
  JSMap.get tag (elementInfo (now (analyse rootElement))) = Some info ->
  attributeNames info = JSSet.ofList (attributeNamesIn tag rootElement).
Proof.
  intros Hg.
  pose proof (processNode_attributes_eq tag rootElement None start) as H.
  fold (analyse rootElement) in H. unfold fieldOf in H at 1.
  now rewrite Hg in H.
Qed.

(** X2.  The attribute names of a record are the attribute names that the
    document has on the elements of the tag, each once, in the order in
    which the document first shows them. *)
Theorem record_attributes_in_document_order
  (rootElement : Node) (tag : string) (info : ElementInfo) :
  JSMap.get tag (elementInfo (now (analyse rootElement))) = Some info ->
  attributeNames info = JSSet.ofList (attributeNamesIn tag rootElement).
Proof.
  intros Hg.
  pose proof (processNode_attributes_eq tag rootElement None start) as H.
  fold (analyse rootElement) in H. unfold fieldOf in H at 1.
  now rewrite Hg in H.
Qed.

(** The nested sample: [x] on the outer [a], [y] on the inner one. *)
Lemma record_attributes_witness :
  JSMap.get "a" (elementInfo (now (analyse nestedDocument)))
  = Some {| attributeNames := ["x"; "y"]; children := ["b"; "c"; "d"];
            hasTextContent := false |}
  /\ ["x"; "y"] = JSSet.ofList (attributeNamesIn "a" nestedDocument).
Proof.
  split; [reflexivity|].
  apply (record_attributes_in_document_order nestedDocument "a"
           {| attributeNames := ["x"; "y"]; children := ["b"; "c"; "d"];
              hasTextContent := false |}).
  reflexivity.
Defined.

Lemma analyse_children_order
  (rootElement : Node) (tag : string) (info : ElementInfo) :
  let st := now (analyse rootElement) in
  JSMap.get tag (elementInfo st) = Some info ->
  children info = JSSet.ofList (childSequence tag rootElement)
  /\ JSMap.get tag (elementOrder st) = Some (children info).
Proof.
  intros st Hg.
  pose proof (processNode_children_eq tag rootElement None start) as Hc.
  pose proof (processNode_order_eq tag rootElement None start start_matched)
    as Ho.
  fold (analyse rootElement) in Hc, Ho. fold st in Hc, Ho.
  unfold fieldOf in Hc at 1. rewrite Hg in Hc.
  split; [exact Hc|].
  pose proof (analyse_paired rootElement tag) as Hp. fold st in Hp.
  unfold JSMap.has in Hp. rewrite Hg in Hp. specialize (Hp eq_refl).
  unfold orderOf in Ho at 1.
  destruct (JSMap.get tag (elementOrder st)) as [o|]; [|discriminate].
  rewrite Ho, Hc. reflexivity.
Qed.

(** X3.  The children of a record are the tag names of the element children
    of the elements of the tag, each once, in the order in which the
    traversal first meets them; and at the end of the traversal the order
    recorded for the tag is that same list. *)
Theorem record_children_and_order_in_traversal_order
  (rootElement : Node) (tag : string) (info : ElementInfo) :
  let st := now (analyse rootElement) in
  JSMap.get tag (elementInfo st) = Some info ->
  children info = JSSet.ofList (childSequence tag rootElement)
  /\ JSMap.get tag (elementOrder st) = Some (children info).
Proof.
  intros st Hg.
  pose proof (processNode_children_eq tag rootElement None start) as Hc.
  pose proof (processNode_order_eq tag rootElement None start start_matched)
    as Ho.
  fold (analyse rootElement) in Hc, Ho. fold st in Hc, Ho.
  unfold fieldOf in Hc at 1. rewrite Hg in Hc.
  split; [exact Hc|].
  pose proof (analyse_paired rootElement tag) as Hp. fold st in Hp.
  unfold JSMap.has in Hp. rewrite Hg in Hp. specialize (Hp eq_refl).
  unfold orderOf in Ho at 1.
  destruct (JSMap.get tag (elementOrder st)) as [o|]; [|discriminate].
  rewrite Ho, Hc. reflexivity.
Qed.

(** The nested sample: under the outer [a] come [b] and [d], under the
    inner [a], which is met in between, comes [c]. *)
Lemma record_children_and_order_witness :
  JSMap.get "a" (elementInfo (now (analyse nestedDocument)))
  = Some {| attributeNames := ["x"; "y"]; children := ["b"; "c"; "d"];
            hasTextContent := false |}
  /\ ["b"; "c"; "d"] = JSSet.ofList (childSequence "a" nestedDocument)
  /\ JSMap.get "a" (elementOrder (now (analyse nestedDocument)))
     = Some ["b"; "c"; "d"].
Proof.
  split; [reflexivity|].
  apply (record_children_and_order_in_traversal_order nestedDocument "a"
           {| attributeNames := ["x"; "y"]; children := ["b"; "c"; "d"];
              hasTextContent := false |}).
  reflexivity.
Defined.

(** ** The type definition, read off the document *)

(** X4.  For a tag that has an element child somewhere in the document, the
    whole type definition is fixed by the document: [mixed="true"] when an
    element of the tag has text of its own, one reference per child tag in
    the order in which the traversal first meets them, one attribute per
    attribute name in the order in which the document first shows them.
    The union with the children that follows the order in the source adds
    nothing and moves nothing. *)
Theorem sequence_type_definition_from_document
  (rootElement : Node) (tag : string) (info : ElementInfo) :
  let st := now (analyse rootElement) in
  JSMap.get tag (elementInfo st) = Some info ->
  childSequence tag rootElement <> [] ->
  typeDefinition st (tag, info)
  = "  <xs:complexType name=" +++ dq +++ tag +++ "Type" +++ dq
    +++ (if textIn tag rootElement
         then " mixed=" +++ dq +++ "true" +++ dq else EmptyString)
    +++ ">" +++ nl
    +++ "    <xs:sequence>" +++ nl
    +++ joinAll (map childReference
                   (JSSet.ofList (childSequence tag rootElement)))
    +++ "    </xs:sequence>" +++ nl
    +++ joinAll (map (attributeDeclaration "    ")
                   (JSSet.ofList (attributeNamesIn tag rootElement)))
    +++ "  </xs:complexType>" +++ nl +++ nl.
Proof.
  intros st Hg Hseq.
  destruct (analyse_children_order rootElement tag info Hg) as [Hc Ho].
  fold st in Ho.
  assert (Hne : children info <> []).
  { rewrite Hc. intros E. apply Hseq.
    destruct (childSequence tag rootElement) as [|x l]; [reflexivity|].
    exfalso. assert (Hin : In x (JSSet.ofList (x :: l))).
    { unfold JSSet.ofList, JSSet.addAll. apply fold_add_In. right. now left. }
    now rewrite E in Hin. }
  assert (Hnd : NoDup (children info)).
  { rewrite Hc. apply fold_add_NoDup. constructor. }
  rewrite (typeDefinition_sequence st tag info Hne), Ho.
  rewrite (ofList_twice _ Hnd).
  rewrite (analyse_text_flag rootElement tag info Hg).
  rewrite (analyse_attributes_eq rootElement tag info Hg), Hc.
  unfold typeNameAttribute. now rewrite !append_assoc.
Qed.

(** The nested sample, tag [a]. *)
Lemma sequence_type_definition_witness :
  JSMap.get "a" (elementInfo (now (analyse nestedDocument)))
  = Some {| attributeNames := ["x"; "y"]; children := ["b"; "c"; "d"];
            hasTextContent := false |}
  /\ childSequence "a" nestedDocument <> []
  /\ typeDefinition (now (analyse nestedDocument))
       ("a", {| attributeNames := ["x"; "y"]; children := ["b"; "c"; "d"];
                hasTextContent := false |})
     = "  <xs:complexType name=" +++ dq +++ "aType" +++ dq +++ ">" +++ nl
       +++ "    <xs:sequence>" +++ nl
       +++ childReference "b" +++ childReference "c" +++ childReference "d"
       +++ "    </xs:sequence>" +++ nl
       +++ attributeDeclaration "    " "x" +++ attributeDeclaration "    " "y"
       +++ "  </xs:complexType>" +++ nl +++ nl.
Proof.
  split; [reflexivity|]. split; [discriminate|].
  apply (sequence_type_definition_from_document nestedDocument "a"
           {| attributeNames := ["x"; "y"]; children := ["b"; "c"; "d"];
              hasTextContent := false |});
    [reflexivity|discriminate].
Defined.

(** ** What the traversal passes over *)

Lemma visitChild_insignificant (processChild : Node -> Run -> Run)
  (n : string) (acc : JSSet.t * Run) (c : Node) :
  significant c = false -> visitChild processChild n acc c = acc.
Proof.
  intros H. unfold visitChild. destruct acc as [s r].
  destruct c as [m a cs | v | v | t v | v]; try reflexivity; try discriminate.
  simpl in H. now rewrite H.
Qed.

Lemma visitChild_prune (n : string) (acc : JSSet.t * Run) (c : Node) :
  (forall p r, processNode (prune c) p r = processNode c p r) ->
  visitChild (fun c => processNode c (Some n)) n acc (prune c)
  = visitChild (fun c => processNode c (Some n)) n acc c.
Proof.
  intros Hc. destruct c as [m a cs | v | v | t v | v]; try reflexivity.
  unfold visitChild. destruct acc as [s r].
  cbn [prune]. cbv beta.
  destruct (_ || _); [destruct (_ && _); [|destruct (negb _)]|];
    rewrite <- (Hc (Some n)); reflexivity.
Qed.

Lemma forEach_prune (n : string) (cs : list Node) :
  Forall (fun c => forall p r, processNode (prune c) p r = processNode c p r)
         cs ->
  forall acc,
    fold_left (visitChild (fun c => processNode c (Some n)) n)
              (flat_map (fun c => if significant c then [prune c] else []) cs)
              acc
    = fold_left (visitChild (fun c => processNode c (Some n)) n) cs acc.
Proof.
  induction 1 as [|c cs Hc _ IH]; intros acc; cbn [flat_map fold_left];
    [reflexivity|].
  destruct (significant c) eqn:E.
  - cbn [app fold_left]. rewrite IH. f_equal. now apply visitChild_prune.
  - cbn [app]. rewrite IH. f_equal. symmetry.
    now apply visitChild_insignificant.
Qed.

Lemma processNode_prune (node : Node) :
  forall p r, processNode (prune node) p r = processNode node p r.
Proof.
  induction node as [n attrs cs IH | v | v | t v | v] using Node_ind;
    intros p r; try reflexivity.
  cbn [prune processNode]. f_equal. now apply forEach_prune.
Qed.

(** X5.  Comments, processing instructions, CDATA sections and blank text
    nodes, at any depth, change nothing: the traversal of the document
    without them goes through the same stores, and the schema is the
    same. *)
Theorem insignificant_nodes_change_nothing (rootElement : Node) :
  analyse (prune rootElement) = analyse rootElement
  /\ printSchema (now (analyse (prune rootElement)))
     = printSchema (now (analyse rootElement)).
Proof.
  assert (H : analyse (prune rootElement) = analyse rootElement)
    by apply processNode_prune.
  split; [exact H|now rewrite H].
Qed.

(** ** Every reference has its declaration *)

Lemma childTagNames_tagNames (c : string) (cs : list Node) :
  In c (childTagNames cs) -> In c (flat_map tagNames cs).
Proof.
  unfold childTagNames. rewrite !in_flat_map.
  intros [x [Hx Hc]]. exists x. split; [assumption|].
  destruct x; simpl in Hc; try contradiction.
  destruct Hc as [<-|[]]. now left.
Qed.

Lemma childNamesIn_tagNames (tag c : string) (node : Node) :
  In c (childNamesIn tag node) -> In c (tagNames node).
Proof.
  induction node as [n attrs cs IH | v | v | t v | v] using Node_ind;
    simpl; try tauto.
  rewrite in_app_iff. intros [H|H]; right.
  - destruct (String.eqb n tag); [|contradiction].
    now apply childTagNames_tagNames.
  - rewrite in_flat_map in *. destruct H as [x [Hx Hc]].
    exists x. split; [assumption|].
    rewrite Forall_forall in IH. now apply IH.
Qed.

(** X6.  No reference dangles: every child name of a record has a record of
    its own, and so a global declaration in the schema. *)
Theorem every_child_is_declared
  (rootElement : Node) (tag child : string) (info : ElementInfo) :
  let st := now (analyse rootElement) in
  JSMap.get tag (elementInfo st) = Some info ->
  In child (children info) ->
  exists childInfo,
    JSMap.get child (elementInfo st) = Some childInfo
    /\ exists before after,
        printSchema st = before +++ elementDeclaration st child +++ after.
Proof.
  intros st Hg Hin.
  apply (analyse_children rootElement tag info Hg) in Hin.
  apply childNamesIn_tagNames in Hin.
  assert (Hk : In child (JSMap.keys (elementInfo st))).
  { subst st. rewrite analyse_keys.
    unfold JSSet.ofList, JSSet.addAll. apply fold_add_In. now right. }
  apply keys_get in Hk as [childInfo Hc].
  exists childInfo. split; [exact Hc|].
  now apply elementDeclaration_printed with childInfo.
Qed.

(** The list sample: [value], the child of [list], has its record. *)
Lemma every_child_is_declared_witness :
  JSMap.get "list" (elementInfo (now (analyse listDocument)))
  = Some {| attributeNames := []; children := ["value"];
            hasTextContent := false |}
  /\ In "value" ["value"]
  /\ exists childInfo,
      JSMap.get "value" (elementInfo (now (analyse listDocument)))
      = Some childInfo.
Proof.
  split; [reflexivity|]. split; [now left|].
  destruct (every_child_is_declared listDocument "list" "value"
              {| attributeNames := []; children := ["value"];
                 hasTextContent := false |} eq_refl (or_introl eq_refl))
    as [childInfo [H _]].
  exists childInfo. exact H.
Defined.

(** ** Declarations and type definitions agree *)

Lemma append_cancel_l (a b c : string) : a +++ b = a +++ c -> b = c.
Proof.
  induction a as [|x a IH]; simpl; [auto|]. intros [= H]. auto.
Qed.

Lemma declaration_lines_differ (tag : string) :
  "  <xs:element name=" +++ dq +++ tag +++ dq
  +++ " type=" +++ dq +++ "tns:" +++ tag +++ "Type" +++ dq +++ "/>" +++ nl
  <> "  <xs:element name=" +++ dq +++ tag +++ dq
     +++ " type=" +++ dq +++ "xs:string" +++ dq +++ "/>" +++ nl.
Proof.
  intros H.
  apply (append_cancel_l "  <xs:element name=") in H.
  apply (append_cancel_l dq) in H.
  apply append_cancel_l in H.
  cbn in H. discriminate.
Qed.

(** X7.  For every record, in any store: the element is declared with the
    type [xs:string] exactly when the record has text, no attribute and no
    child, and that is exactly when no type definition is printed for it.
    So every generated type that a declaration names is defined, and no
    type is defined that no declaration names. *)
Theorem declaration_and_type_definition_agree
  (st : Store) (tag : string) (info : ElementInfo) :
  JSMap.get tag (elementInfo st) = Some info ->
  (typeDefinition st (tag, info) = EmptyString
   <-> hasTextContent info = true /\ attributeNames info = []
       /\ children info = [])
  /\ (elementDeclaration st tag
      = "  <xs:element name=" +++ dq +++ tag +++ dq
        +++ " type=" +++ dq +++ "xs:string" +++ dq +++ "/>" +++ nl
      <-> typeDefinition st (tag, info) = EmptyString).
Proof.
  intros Hg.
  assert (Hdef : typeDefinition st (tag, info) = EmptyString
                 <-> hasTextContent info = true /\ attributeNames info = []
                     /\ children info = []).
  { split.
    - intros E. destruct (children info) as [|c cs] eqn:Hc.
      + destruct (hasTextContent info) eqn:Ht.
        * destruct (attributeNames info) as [|a l] eqn:Ha; [auto|].
          rewrite typeDefinition_simpleContent in E by (auto; congruence).
          discriminate.
        * rewrite typeDefinition_empty in E by auto. discriminate.
      + rewrite typeDefinition_sequence in E by congruence. discriminate.
    - intros [Ht [Ha Hc]]. now apply typeDefinition_none. }
  split; [exact Hdef|]. rewrite Hdef. split.
  - intros E. destruct (hasTextContent info) eqn:Ht.
    + destruct (attributeNames info) as [|a l] eqn:Ha.
      * destruct (children info) as [|c cs] eqn:Hc; [auto|].
        rewrite (elementDeclaration_generated st tag info Hg) in E
          by (right; right; congruence).
        now apply declaration_lines_differ in E.
      * rewrite (elementDeclaration_generated st tag info Hg) in E
          by (right; left; congruence).
        now apply declaration_lines_differ in E.
    + rewrite (elementDeclaration_generated st tag info Hg) in E by auto.
      now apply declaration_lines_differ in E.
  - intros [Ht [Ha Hc]]. now apply elementDeclaration_string with info.
Qed.

(** The message sample, whose one record has text only. *)
Lemma declaration_and_type_definition_witness :
  JSMap.get "message" (elementInfo (now (analyse messageDocument)))
  = Some {| attributeNames := []; children := []; hasTextContent := true |}
  /\ (elementDeclaration (now (analyse messageDocument)) "message"
      = "  <xs:element name=" +++ dq +++ "message" +++ dq
        +++ " type=" +++ dq +++ "xs:string" +++ dq +++ "/>" +++ nl
      <-> typeDefinition (now (analyse messageDocument))
            ("message", {| attributeNames := []; children := [];
                           hasTextContent := true |}) = EmptyString).
Proof.
  split; [reflexivity|].
  apply (declaration_and_type_definition_agree
           (now (analyse messageDocument)) "message"
           {| attributeNames := []; children := []; hasTextContent := true |}).
  reflexivity.
Defined.

(** ** The records and the tags *)

Lemma addAll_prefix (l : list string) (s : JSSet.t) :
  exists rest, JSSet.addAll l s = s ++ rest.
Proof.
  revert s; induction l as [|x l IH]; intros s.
  - exists []. simpl. now rewrite app_nil_r.
  - cbn. destruct (IH (JSSet.add x s)) as [rest E].
    unfold JSSet.addAll in E. rewrite E. unfold JSSet.add.
    destruct (JSSet.has x s); [eauto|].
    exists (x :: rest). now rewrite <- app_assoc.
Qed.

(** X8.  There is one record per tag name of the document, wherever and
    however often the tag occurs, and none for any other name; the records,
    and with them the declarations, begin with the root element's. *)
Theorem records_are_the_tags_of_the_document (rootElement : Node) :
  let st := now (analyse rootElement) in
  (forall tag, JSMap.has tag (elementInfo st) = true
               <-> In tag (tagNames rootElement))
  /\ NoDup (JSMap.keys (elementInfo st))
  /\ (forall tagName attrs childNodes,
        rootElement = Element tagName attrs childNodes ->
        exists rest, JSMap.keys (elementInfo st) = tagName :: rest).
Proof.
  intros st. split; [|split].
  - intros tag. rewrite has_keys, has_In. subst st. rewrite analyse_keys.
    unfold JSSet.ofList, JSSet.addAll. rewrite fold_add_In. simpl. tauto.
  - apply analyse_keys_NoDup.
  - intros tagName attrs childNodes ->. subst st. rewrite analyse_keys.
    cbn [tagNames]. unfold JSSet.ofList. cbn.
    destruct (addAll_prefix (flat_map tagNames childNodes) [tagName])
      as [rest E].
    exists rest. exact E.
Qed.

(** ** The traversal computes the summary *)

Lemma analyse_order_keys (rootElement : Node) :
  JSMap.keys (elementOrder (now (analyse rootElement)))
  = JSMap.keys (elementInfo (now (analyse rootElement))).
Proof.
  unfold analyse.
  apply (processNode_preserves
           (fun st => JSMap.keys (elementOrder st) = JSMap.keys (elementInfo st)));
    simpl; intros; rewrite ?keys_set, ?keys_update; congruence.
Qed.

Lemma entries_from_keys {V} (m : JSMap.t V) (f : string -> V) :
  (forall k v, In (k, v) m -> v = f k) ->
  m = map (fun k => (k, f k)) (JSMap.keys m).
Proof.
  induction m as [|[k v] m IH]; intros H; simpl; [reflexivity|].
  rewrite <- IH by (intros k' v' Hin; apply H; now right).
  now rewrite <- (H k v) by now left.
Qed.

(** X9.  The store at the end of the traversal is the summary of the
    document: the records in order of first occurrence of the tags, each
    with the attribute names and the child tags of its elements in order of
    first encounter and with its text flag, and the orders equal to the
    children.  The schema is therefore a function of that summary alone. *)
Theorem traversal_computes_the_summary (rootElement : Node) :
  now (analyse rootElement) = summarise rootElement.
Proof.
  pose proof (analyse_keys rootElement) as Hk.
  pose proof (analyse_order_keys rootElement) as Hok.
  pose proof (analyse_keys_NoDup rootElement) as Hnd.
  destruct (now (analyse rootElement)) as [ei eo] eqn:E.
  simpl in Hk, Hok, Hnd. unfold summarise. f_equal.
  - rewrite <- Hk. apply entries_from_keys. intros k v Hin.
    assert (Hg : JSMap.get k (elementInfo (now (analyse rootElement))) = Some v)
      by (rewrite E; now apply In_get).
    rewrite <- (analyse_attributes_eq rootElement k v Hg).
    rewrite <- (proj1 (analyse_children_order rootElement k v Hg)).
    rewrite <- (analyse_text_flag rootElement k v Hg).
    now destruct v.
  - rewrite <- Hk, <- Hok. apply entries_from_keys. intros k o Hin.
    assert (Ho : JSMap.get k eo = Some o)
      by (apply In_get; [now rewrite Hok|exact Hin]).
    assert (Hin' : In k (JSMap.keys ei)).
    { rewrite <- Hok. change k with (fst (k, o)). now apply in_map. }
    apply keys_get in Hin' as [v Hv].
    assert (Hg : JSMap.get k (elementInfo (now (analyse rootElement))) = Some v)
      by now rewrite E.
    destruct (analyse_children_order rootElement k v Hg) as [Hc Hord].
    rewrite E in Hord. simpl in Hord. congruence.
Qed.

(** * The parser of the test suite and the component *)

Lemma truthy_false_iff (s : string) : truthy s = false <-> s = EmptyString.
Proof. destruct s; simpl; split; intros H; congruence. Qed.

(** X10.  With the parser of the test suite, every blank input (empty, or
    white space only) and the comment-only document, with white space
    around it or not, make [generateXsd] throw
    [Invalid XML: No root element found.] and log nothing; the tags of the
    input are never read. *)
Theorem mock_blank_input_has_no_root
  (readTags : string -> MockDocument) (xmlString : string) (console : Console) :
  trim xmlString = EmptyString \/ trim xmlString = commentOnly ->
  generateXsd (mockParser readTags) xmlString console
  = (Throw "Invalid XML: No root element found.", console).
Proof.
  intros H. unfold generateXsd, mockParser, mockParseFromString. cbn [parseFromString].
  assert (E : negb (truthy xmlString) || negb (truthy (trim xmlString))
              || (trim xmlString =? commentOnly)%string = true).
  { destruct H as [H|H]; rewrite H.
    - now destruct (truthy xmlString).
    - rewrite String.eqb_refl. apply orb_true_r. }
  rewrite E. reflexivity.
Qed.

(** White space only: a space, a tab and a line feed. *)
Lemma mock_blank_input_witness :
  trim (" " +++ String "009"%char nl) = EmptyString
  /\ generateXsd (mockParser (fun _ => newMockDocument))
       (" " +++ String "009"%char nl) []
     = (Throw "Invalid XML: No root element found.", []).
Proof.
  split; [reflexivity|].
  apply (mock_blank_input_has_no_root (fun _ => newMockDocument)
           (" " +++ String "009"%char nl) []).
  left. reflexivity.
Defined.

(** X11.  With the parser of the test suite, an input that has the marker
    [<parsererror>] (and is not the comment-only document) never yields a
    schema: [generateXsd] throws the message of a parse error whose text is
    not empty, and logs that error once; the tags of the input are never
    read. *)
Theorem mock_marker_is_a_parse_error
  (readTags : string -> MockDocument) (xmlString : string) (console : Console) :
  includes "<parsererror>" xmlString = true ->
  trim xmlString <> EmptyString ->
  trim xmlString <> commentOnly ->
  exists e,
    textContent e <> EmptyString
    /\ generateXsd (mockParser readTags) xmlString console
       = (Throw (parseErrorMessage e),
          console ++ [{| label := "XML Parsing Error:"; logged := e |}]).
Proof.
  intros Hi Hb Hc. unfold generateXsd, mockParser, mockParseFromString.
  cbn [parseFromString].
  assert (E : negb (truthy xmlString) || negb (truthy (trim xmlString))
              || (trim xmlString =? commentOnly)%string = false).
  { apply String.eqb_neq in Hc. rewrite Hc, orb_false_r.
    destruct (truthy (trim xmlString)) eqn:Et;
      [|now apply truthy_false_iff in Et].
    destruct xmlString; [now cbn in Hb|reflexivity]. }
  rewrite E, Hi. cbn [mockQuerySelector _isError errorContent].
  eexists. split; [|reflexivity]. cbn [textContent].
  remember (match matchParserError xmlString with
            | Some inner => trim inner
            | None => simulatedError
            end) as ec.
  destruct (truthy ec) eqn:Et.
  - intros H. rewrite H in Et. discriminate.
  - discriminate.
Qed.

(** The input of the test: the second line of the marked text is the
    message. *)
Lemma mock_marker_witness :
  includes "<parsererror>"
    ("<parsererror>Simulated error" +++ nl +++ "Details here</parsererror>")
  = true
  /\ exists e,
      generateXsd (mockParser (fun _ => newMockDocument))
        ("<parsererror>Simulated error" +++ nl
           +++ "Details here</parsererror>") []
      = (Throw (parseErrorMessage e),
         [{| label := "XML Parsing Error:"; logged := e |}])
      /\ parseErrorMessage e = "Invalid XML: Details here".
Proof.
  split; [reflexivity|].
  destruct (mock_marker_is_a_parse_error (fun _ => newMockDocument)
              ("<parsererror>Simulated error" +++ nl
                 +++ "Details here</parsererror>") [])
    as [e [_ He]]; [reflexivity|discriminate|discriminate|].
  exists e. split; [exact He|].
  assert (E : e = {| textContent := "Simulated error" +++ nl +++ "Details here" |}).
  { apply (f_equal snd) in He. vm_compute in He. inversion He. reflexivity. }
  rewrite E. reflexivity.
Defined.

Lemma printSchema_truthy (st : Store) : truthy (printSchema st) = true.
Proof. now rewrite printSchema_layout. Qed.

(** X13.  The callback of the timer converts the input that was in the text
    area when the button was pressed.  When the text area is edited during
    the delay, the schema that appears afterwards is that of the old input,
    beside the new text. *)
Theorem edit_during_the_delay_shows_the_old_schema
  (parser : DOMParser) (ui : Converter.State) (old new : string)
  (console : list Converter.ConsoleCall) (schema : string) :
  trim old <> EmptyString ->
  fst (generateXsd parser old []) = Return schema ->
  let pressed :=
    Converter.handleConvert (Converter.handleXmlInputChange old ui) in
  let edited := Converter.handleXmlInputChange new (fst pressed) in
  let done := Converter.conversionTimer parser old edited console in
  snd pressed = Some old
  /\ Converter.xmlInput (fst done) = new
  /\ Converter.xsdOutput (fst done) = schema
  /\ Converter.outputShown (fst done) = true.
Proof.
  intros Ht Hs. cbv zeta.
  unfold Converter.handleConvert, Converter.handleXmlInputChange.
  cbn [Converter.xmlInput].
  destruct (truthy (trim old)) eqn:Et;
    [|now apply truthy_false_iff in Et].
  cbn [negb fst snd]. split; [reflexivity|].
  assert (Hne : truthy schema = true).
  { revert Hs. unfold generateXsd.
    destruct (querySelector_parsererror _); [discriminate|].
    destruct (documentElement _); [|discriminate].
    intros [= <-]. apply printSchema_truthy. }
  unfold Converter.conversionTimer.
  destruct (generateXsd parser old []) as [outcome logged].
  cbn [fst] in Hs. subst outcome. cbn.
  split; [reflexivity|]. split; [reflexivity|].
  unfold Converter.outputShown. cbn. now rewrite Hne.
Qed.

(** The message sample is converted while the text area already holds
    [<other/>]. *)
Lemma edit_during_the_delay_witness :
  trim "<message>Hello World</message>" <> EmptyString
  /\ fst (generateXsd sampleParser "<message>Hello World</message>" [])
     = Return (printSchema (now (analyse messageDocument)))
  /\ Converter.xmlInput
       (fst (Converter.conversionTimer sampleParser
               "<message>Hello World</message>"
               (Converter.handleXmlInputChange "<other/>"
                  (fst (Converter.handleConvert
                          (Converter.handleXmlInputChange
                             "<message>Hello World</message>"
                             {| Converter.xmlInput := EmptyString;
                                Converter.xsdOutput := EmptyString;
                                Converter.error := EmptyString;
                                Converter.isLoading := false;
                                Converter.copyStatus := EmptyString |}))))
               []))
     = "<other/>"
  /\ Converter.xsdOutput
       (fst (Converter.conversionTimer sampleParser
               "<message>Hello World</message>"
               (Converter.handleXmlInputChange "<other/>"
                  (fst (Converter.handleConvert
                          (Converter.handleXmlInputChange
                             "<message>Hello World</message>"
                             {| Converter.xmlInput := EmptyString;
                                Converter.xsdOutput := EmptyString;
                                Converter.error := EmptyString;
                                Converter.isLoading := false;
                                Converter.copyStatus := EmptyString |}))))
               []))
     = printSchema (now (analyse messageDocument)).
Proof.
  split; [discriminate|]. split; [reflexivity|].
  destruct (edit_during_the_delay_shows_the_old_schema sampleParser
              {| Converter.xmlInput := EmptyString;
                 Converter.xsdOutput := EmptyString;
                 Converter.error := EmptyString;
                 Converter.isLoading := false;
                 Converter.copyStatus := EmptyString |}
              "<message>Hello World</message>" "<other/>" []
              (printSchema (now (analyse messageDocument))))
    as [_ [H1 [H2 _]]]; [discriminate|reflexivity|].
  split; [exact H1|exact H2].
Defined.

(** * The layout of the schema and the fixed outcome *)

Lemma analyse_summary (rootElement : Node) :
  now (analyse rootElement) = summarise rootElement.
Proof.
  pose proof (analyse_keys rootElement) as Hk.
  pose proof (analyse_order_keys rootElement) as Hok.
  pose proof (analyse_keys_NoDup rootElement) as Hnd.
  destruct (now (analyse rootElement)) as [ei eo] eqn:E.
  simpl in Hk, Hok, Hnd. unfold summarise. f_equal.
  - rewrite <- Hk. apply entries_from_keys. intros k v Hin.
    assert (Hg : JSMap.get k (elementInfo (now (analyse rootElement))) = Some v)
      by (rewrite E; now apply In_get).
    rewrite <- (analyse_attributes_eq rootElement k v Hg).
    rewrite <- (proj1 (analyse_children_order rootElement k v Hg)).
    rewrite <- (analyse_text_flag rootElement k v Hg).
    now destruct v.
  - rewrite <- Hk, <- Hok. apply entries_from_keys. intros k o Hin.
    assert (Ho : JSMap.get k eo = Some o)
      by (apply In_get; [now rewrite Hok|exact Hin]).
    assert (Hin' : In k (JSMap.keys ei)).
    { rewrite <- Hok. change k with (fst (k, o)). now apply in_map. }
    apply keys_get in Hin' as [v Hv].
    assert (Hg : JSMap.get k (elementInfo (now (analyse rootElement))) = Some v)
      by now rewrite E.
    destruct (analyse_children_order rootElement k v Hg) as [Hc Hord].
    rewrite E in Hord. simpl in Hord. congruence.
Qed.

Lemma summarise_keys (rootElement : Node) :
  JSMap.keys (elementInfo (summarise rootElement))
  = JSSet.ofList (tagNames rootElement).
Proof.
  unfold summarise, JSMap.keys. cbn [elementInfo].
  rewrite map_map. cbn [fst]. apply map_id.
Qed.

(** What the two loops print for one record of a finished traversal. *)
Lemma entry_is_printed_in_full
  (rootElement : Node) (tag : string) (info : ElementInfo) :
  let st := now (analyse rootElement) in
  JSMap.get tag (elementInfo st) = Some info ->
  (children info <> []
   /\ elementDeclaration st tag
      = "  <xs:element name=" +++ dq +++ tag +++ dq
        +++ " type=" +++ dq +++ "tns:" +++ tag +++ "Type" +++ dq +++ "/>" +++ nl
   /\ typeDefinition st (tag, info)
      = "  <xs:complexType name=" +++ dq +++ tag +++ "Type" +++ dq
        +++ (if hasTextContent info
             then " mixed=" +++ dq +++ "true" +++ dq else EmptyString)
        +++ ">" +++ nl
        +++ "    <xs:sequence>" +++ nl
        +++ joinAll (map childReference (children info))
        +++ "    </xs:sequence>" +++ nl
        +++ joinAll (map (attributeDeclaration "    ") (attributeNames info))
        +++ "  </xs:complexType>" +++ nl +++ nl)
  \/ (children info = [] /\ hasTextContent info = false
      /\ elementDeclaration st tag
         = "  <xs:element name=" +++ dq +++ tag +++ dq
           +++ " type=" +++ dq +++ "tns:" +++ tag +++ "Type" +++ dq +++ "/>"
           +++ nl
      /\ typeDefinition st (tag, info)
         = "  <xs:complexType name=" +++ dq +++ tag +++ "Type" +++ dq +++ ">"
           +++ nl
           +++ "    <xs:sequence minOccurs=" +++ dq +++ "0" +++ dq +++ "/>"
           +++ nl
           +++ joinAll (map (attributeDeclaration "    ") (attributeNames info))
           +++ "  </xs:complexType>" +++ nl +++ nl)
  \/ (children info = [] /\ hasTextContent info = true
      /\ attributeNames info <> []
      /\ elementDeclaration st tag
         = "  <xs:element name=" +++ dq +++ tag +++ dq
           +++ " type=" +++ dq +++ "tns:" +++ tag +++ "Type" +++ dq +++ "/>"
           +++ nl
      /\ typeDefinition st (tag, info)
         = "  <xs:complexType name=" +++ dq +++ tag +++ "Type" +++ dq +++ ">"
           +++ nl
           +++ "    <xs:simpleContent>" +++ nl
           +++ "      <xs:extension base=" +++ dq +++ "xs:string" +++ dq +++ ">"
           +++ nl
           +++ joinAll (map (attributeDeclaration "        ")
                          (attributeNames info))
           +++ "      </xs:extension>" +++ nl
           +++ "    </xs:simpleContent>" +++ nl
           +++ "  </xs:complexType>" +++ nl +++ nl)
  \/ (children info = [] /\ hasTextContent info = true
      /\ attributeNames info = []
      /\ elementDeclaration st tag
         = "  <xs:element name=" +++ dq +++ tag +++ dq
           +++ " type=" +++ dq +++ "xs:string" +++ dq +++ "/>" +++ nl
      /\ typeDefinition st (tag, info) = EmptyString).
Proof.
  intros st Hg.
  destruct (children info) as [|c cs] eqn:Hc.
  - destruct (hasTextContent info) eqn:Ht.
    + destruct (attributeNames info) as [|a l] eqn:Ha.
      * right. right. right. repeat split.
        -- now apply elementDeclaration_string with info.
        -- now apply typeDefinition_none.
      * right. right. left. repeat split; [discriminate| |].
        -- apply elementDeclaration_generated with info; [assumption|].
           right. left. congruence.
        -- rewrite typeDefinition_simpleContent by (auto; congruence).
           now rewrite Ha.
    + right. left. repeat split.
      * apply elementDeclaration_generated with info; auto.
      * now rewrite typeDefinition_empty by auto.
  - left. split; [discriminate|]. split.
    + apply elementDeclaration_generated with info; [assumption|].
      right. right. congruence.
    + destruct (analyse_children_order rootElement tag info Hg) as [Hseq Ho].
      fold st in Ho.
      assert (Hnd : NoDup (children info))
        by (rewrite Hseq; apply fold_add_NoDup; constructor).
      rewrite typeDefinition_sequence by congruence.
      rewrite Ho, (ofList_twice _ Hnd), Hc.
      unfold typeNameAttribute. now rewrite !append_assoc.
Qed.

(** C9.  A call that returns has parsed a document with a root element, and
    the schema is, in this order: the XML declaration; the start tag of
    [xs:schema] with [xmlns:xs], [targetNamespace] and [xmlns:tns]; a
    comment line and one global declaration per tag name of the document,
    in the order in which the names first occur; an empty line and a comment
    line; the type definitions, in the same order of the records; the end
    tag of [xs:schema].  Every tag name of the document has its record, and
    what is printed for a record is one of four things: with children, the
    declaration of type [tns:] tag [Type] and the definition of that type
    with the sequence of the children and the attributes; without children
    and text, that declaration and the definition with the empty sequence
    and the attributes; with text and attributes only, that declaration and
    the definition with simple content; with text only, the declaration of
    type [xs:string] and no definition. *)
Theorem schema_document_layout
  (parser : DOMParser) (xmlString : string) (console console' : Console)
  (xsd : string) :
  generateXsd parser xmlString console = (Return xsd, console') ->
  exists rootElement,
    documentElement (parseFromString parser xmlString "application/xml")
    = Some rootElement
    /\ let st := now (analyse rootElement) in
       xsd
       = ("<?xml version=" +++ dq +++ "1.0" +++ dq
          +++ " encoding=" +++ dq +++ "UTF-8" +++ dq +++ "?>" +++ nl)
         +++ ("<xs:schema xmlns:xs=" +++ dq
              +++ "http://www.w3.org/2001/XMLSchema" +++ dq +++ nl
              +++ "           targetNamespace=" +++ dq
              +++ "http://example.com/generatedSchema" +++ dq +++ nl
              +++ "           xmlns:tns=" +++ dq
              +++ "http://example.com/generatedSchema" +++ dq +++ nl
              +++ "           elementFormDefault=" +++ dq +++ "qualified"
              +++ dq +++ ">" +++ nl +++ nl)
         +++ ("  <!-- Global Element Declarations -->" +++ nl)
         +++ joinAll (map (elementDeclaration st)
                        (JSSet.ofList (tagNames rootElement)))
         +++ nl
         +++ ("  <!-- Complex Type Definitions -->" +++ nl)
         +++ joinAll (map (typeDefinition st) (JSMap.entries (elementInfo st)))
         +++ "</xs:schema>" +++ nl
       /\ JSMap.keys (elementInfo st) = JSSet.ofList (tagNames rootElement)
       /\ (forall tag,
             In tag (JSSet.ofList (tagNames rootElement)) ->
             exists info, In (tag, info) (JSMap.entries (elementInfo st)))
       /\ (forall tag info,
             In (tag, info) (JSMap.entries (elementInfo st)) ->
             (children info <> []
              /\ elementDeclaration st tag
                 = "  <xs:element name=" +++ dq +++ tag +++ dq
                   +++ " type=" +++ dq +++ "tns:" +++ tag +++ "Type" +++ dq
                   +++ "/>" +++ nl
              /\ typeDefinition st (tag, info)
                 = "  <xs:complexType name=" +++ dq +++ tag +++ "Type" +++ dq
                   +++ (if hasTextContent info
                        then " mixed=" +++ dq +++ "true" +++ dq
                        else EmptyString)
                   +++ ">" +++ nl
                   +++ "    <xs:sequence>" +++ nl
                   +++ joinAll (map childReference (children info))
                   +++ "    </xs:sequence>" +++ nl
                   +++ joinAll (map (attributeDeclaration "    ")
                                  (attributeNames info))
                   +++ "  </xs:complexType>" +++ nl +++ nl)
             \/ (children info = [] /\ hasTextContent info = false
                 /\ elementDeclaration st tag
                    = "  <xs:element name=" +++ dq +++ tag +++ dq
                      +++ " type=" +++ dq +++ "tns:" +++ tag +++ "Type" +++ dq
                      +++ "/>" +++ nl
                 /\ typeDefinition st (tag, info)
                    = "  <xs:complexType name=" +++ dq +++ tag +++ "Type"
                      +++ dq +++ ">" +++ nl
                      +++ "    <xs:sequence minOccurs=" +++ dq +++ "0" +++ dq
                      +++ "/>" +++ nl
                      +++ joinAll (map (attributeDeclaration "    ")
                                     (attributeNames info))
                      +++ "  </xs:complexType>" +++ nl +++ nl)
             \/ (children info = [] /\ hasTextContent info = true
                 /\ attributeNames info <> []
                 /\ elementDeclaration st tag
                    = "  <xs:element name=" +++ dq +++ tag +++ dq
                      +++ " type=" +++ dq +++ "tns:" +++ tag +++ "Type" +++ dq
                      +++ "/>" +++ nl
                 /\ typeDefinition st (tag, info)
                    = "  <xs:complexType name=" +++ dq +++ tag +++ "Type"
                      +++ dq +++ ">" +++ nl
                      +++ "    <xs:simpleContent>" +++ nl
                      +++ "      <xs:extension base=" +++ dq +++ "xs:string"
                      +++ dq +++ ">" +++ nl
                      +++ joinAll (map (attributeDeclaration "        ")
                                     (attributeNames info))
                      +++ "      </xs:extension>" +++ nl
                      +++ "    </xs:simpleContent>" +++ nl
                      +++ "  </xs:complexType>" +++ nl +++ nl)
             \/ (children info = [] /\ hasTextContent info = true
                 /\ attributeNames info = []
                 /\ elementDeclaration st tag
                    = "  <xs:element name=" +++ dq +++ tag +++ dq
                      +++ " type=" +++ dq +++ "xs:string" +++ dq +++ "/>"
                      +++ nl
                 /\ typeDefinition st (tag, info) = EmptyString)).
Proof.
  unfold generateXsd.
  destruct (querySelector_parsererror _); [discriminate|].
  destruct (documentElement _) as [rootElement|]; [|discriminate].
  intros [= <- _]. exists rootElement. split; [reflexivity|].
  cbv zeta. split; [|split; [|split]].
  - rewrite printSchema_layout, analyse_keys.
    unfold xmlDeclaration, schemaStartTag. now rewrite !append_assoc.
  - apply analyse_keys.
  - intros tag Hin. rewrite <- analyse_keys in Hin.
    apply keys_get in Hin as [info Hg]. exists info.
    now apply get_In in Hg as [Hin _].
  - intros tag info Hin.
    apply In_get in Hin; [|apply analyse_keys_NoDup].
    now apply entry_is_printed_in_full.
Qed.

(** The list sample: the whole schema, and the record of [list] among the
    entries. *)
Lemma schema_document_layout_witness :
  generateXsd sampleParser "<list><value>A</value><value>B</value></list>" []
  = (Return
       ("<?xml version=" +++ dq +++ "1.0" +++ dq
        +++ " encoding=" +++ dq +++ "UTF-8" +++ dq +++ "?>" +++ nl
        +++ "<xs:schema xmlns:xs=" +++ dq
        +++ "http://www.w3.org/2001/XMLSchema" +++ dq +++ nl
        +++ "           targetNamespace=" +++ dq
        +++ "http://example.com/generatedSchema" +++ dq +++ nl
        +++ "           xmlns:tns=" +++ dq
        +++ "http://example.com/generatedSchema" +++ dq +++ nl
        +++ "           elementFormDefault=" +++ dq +++ "qualified" +++ dq
        +++ ">" +++ nl +++ nl
        +++ "  <!-- Global Element Declarations -->" +++ nl
        +++ "  <xs:element name=" +++ dq +++ "list" +++ dq
        +++ " type=" +++ dq +++ "tns:listType" +++ dq +++ "/>" +++ nl
        +++ "  <xs:element name=" +++ dq +++ "value" +++ dq
        +++ " type=" +++ dq +++ "xs:string" +++ dq +++ "/>" +++ nl
        +++ nl
        +++ "  <!-- Complex Type Definitions -->" +++ nl
        +++ "  <xs:complexType name=" +++ dq +++ "listType" +++ dq +++ ">"
        +++ nl
        +++ "    <xs:sequence>" +++ nl
        +++ "      <xs:element ref=" +++ dq +++ "tns:value" +++ dq
        +++ " minOccurs=" +++ dq +++ "0" +++ dq
        +++ " maxOccurs=" +++ dq +++ "unbounded" +++ dq +++ "/>" +++ nl
        +++ "    </xs:sequence>" +++ nl
        +++ "  </xs:complexType>" +++ nl +++ nl
        +++ "</xs:schema>" +++ nl),
     [])
  /\ exists rootElement,
      documentElement
        (parseFromString sampleParser
           "<list><value>A</value><value>B</value></list>" "application/xml")
      = Some rootElement
      /\ JSMap.keys (elementInfo (now (analyse rootElement)))
         = JSSet.ofList (tagNames rootElement)
      /\ exists info,
          In ("list", info)
             (JSMap.entries (elementInfo (now (analyse rootElement)))).
Proof.
  split; [reflexivity|].
  destruct (schema_document_layout sampleParser
              "<list><value>A</value><value>B</value></list>" [] []
              (printSchema (now (analyse listDocument))) eq_refl)
    as [rootElement [H1 [_ [H2 [H3 _]]]]].
  exists rootElement. split; [exact H1|]. split; [exact H2|].
  apply H3. injection H1 as <-. vm_compute. now left.
Defined.

(** C7.  The outcome of a call is fixed by the document that the parser
    gives, by a description that has no store in it: the message of the
    parse error, the message of the missing root element, or the schema of
    the summary of the document, whose declarations are in the order in
    which the tag names first occur in the document and whose records list
    attribute names and child tags in the order in which the document
    first shows them.  No order in the output comes from anything else, and
    so a second call on the same input, made on the console that the first
    call left, has the same outcome and logs the same entries again. *)
Theorem generateXsd_outcome_fixed_by_the_document
  (parser : DOMParser) (xmlString : string) (console : Console) :
  let xmlDoc := parseFromString parser xmlString "application/xml" in
  let first := generateXsd parser xmlString console in
  let second := generateXsd parser xmlString (snd first) in
  fst first
  = match querySelector_parsererror xmlDoc with
    | Some e => Throw (parseErrorMessage e)
    | None =>
        match documentElement xmlDoc with
        | None => Throw "Invalid XML: No root element found."
        | Some rootElement => Return (printSchema (summarise rootElement))
        end
    end
  /\ (forall rootElement,
        printSchema (summarise rootElement)
        = xmlDeclaration +++ schemaStartTag
          +++ ("  <!-- Global Element Declarations -->" +++ nl)
          +++ joinAll (map (elementDeclaration (summarise rootElement))
                         (JSSet.ofList (tagNames rootElement)))
          +++ nl
          +++ ("  <!-- Complex Type Definitions -->" +++ nl)
          +++ joinAll
                (map (fun tag =>
                        typeDefinition (summarise rootElement)
                          (tag,
                           {| attributeNames :=
                                JSSet.ofList (attributeNamesIn tag rootElement);
                              children :=
                                JSSet.ofList (childSequence tag rootElement);
                              hasTextContent := textIn tag rootElement |}))
                     (JSSet.ofList (tagNames rootElement)))
          +++ "</xs:schema>" +++ nl)
  /\ fst second = fst first
  /\ exists entries,
      snd first = console ++ entries /\ snd second = snd first ++ entries.
Proof.
  cbv zeta. split; [|split].
  - unfold generateXsd.
    destruct (querySelector_parsererror _) as [e|]; [reflexivity|].
    destruct (documentElement _) as [rootElement|]; [|reflexivity].
    cbn [fst]. now rewrite analyse_summary.
  - intros rootElement. rewrite printSchema_layout, summarise_keys.
    unfold summarise at 3. cbn [elementInfo JSMap.entries].
    unfold JSMap.entries. now rewrite map_map.
  - unfold generateXsd.
    destruct (querySelector_parsererror _) as [e|]; cbn [fst snd].
    + split; [reflexivity|]. eauto.
    + destruct (documentElement _); cbn [fst snd];
        (split; [reflexivity|]); exists []; now rewrite !app_nil_r.
Qed.
